(** * Backtest engine of crypto-analysis: [analysis/backtests.py]

    A shallow embedding of [SimpleBacktester.run_backtest] and of the
    metrics it derives, with the properties of the simulation loop, of the
    forced liquidation and of the four metrics.

    Numbers.  The program computes in binary floating point; the embedding
    computes with exact rationals ([Q]), so rounding, overflow and
    underflow are not modelled.  A division by zero yields an infinity or
    a NaN when an operand is a numpy scalar, and raises
    [ZeroDivisionError] between two plain Python floats; what pandas makes
    of an infinity or a NaN afterwards ([dropna], [skipna]) is not
    followed here.  The embedding stops at every division by zero with
    [DivByZero] (or [None]), and the theorems are about the runs on which
    it does not happen.  The two NaN values that pandas produces by its
    own rules on finite data are modelled: the minimum of an empty Series
    ([NaN]) and the standard deviation of fewer than two observations
    ([None] of [Series.std]).  The Sharpe ratio needs a square root and is
    a real number ([R]).

    Besides the engine the file embeds the indicators of
    [analysis/technical_indicators.py], the three strategies of
    [strategies/signals.py], the drawdown curve of
    [plot_backtest_results], and the cache of [utils/helpers.py] with the
    fetcher of [data/fetch_data.py] that uses it.  In the indicators a
    NaN entry of a Series is [None]; the RSI and the stochastic
    oscillator, which divide by a Series that can be zero, compute with
    the IEEE special values ([xfloat]); the Bollinger bands need a square
    root and are real numbers.  The cache directory is a map from file
    names to files; the clock and the exchange are part of the world
    that a fetch reads and changes. *)

From Stdlib Require Import List ZArith QArith Qabs Bool Lia Psatz.
From Stdlib Require Import Reals Qreals Sorted.
From Stdlib Require String Ascii DecimalString DecimalZ.
Import ListNotations.

#[local] Open Scope Q_scope.

(** ** Comparisons of the program, as booleans *)

(** [x < y] on floats. *)
Definition Qltb (x y : Q) : bool := negb (Qle_bool y x).

(** ** Data model *)

(** One row of the data frame after [df['signal'] = signals]: the index
    entry, the [close] column and the [signal] column.  The other OHLCV
    columns are never read by the engine. *)
Record Row : Type := mkRow {
  timestamp : Z;
  close : Q;
  signal : Z
}.

Definition DataFrame : Type := list Row.

Definition default_row : Row := mkRow 0 0 0.

(** [df.iloc[i]], read only at positions inside the frame. *)
Definition iloc (df : DataFrame) (i : nat) : Row := nth i df default_row.

Inductive Side : Type := BUY | SELL.

(** One entry of the [trades] list (a dict in the program). *)
Record Trade : Type := mkTrade {
  tr_timestamp : Z;
  tr_type : Side;
  tr_price : Q;
  tr_quantity : Q;
  tr_balance : Q
}.

Definition is_buy (t : Trade) : bool :=
  match tr_type t with BUY => true | SELL => false end.

Definition is_sell (t : Trade) : bool :=
  match tr_type t with BUY => false | SELL => true end.

(** The two attributes set by [SimpleBacktester.__init__]. *)
Record SimpleBacktester : Type := mkBacktester {
  initial_balance : Q;
  commission : Q
}.

(** The local variables of [run_backtest] that the loop updates. *)
Record SimState : Type := mkState {
  balance : Q;
  position : Q;
  trades : list Trade;
  equity_curve : list Q
}.

Definition init_state (self : SimpleBacktester) : SimState :=
  mkState (initial_balance self) 0 [] [initial_balance self].

(** ** The simulation loop *)

Section Engine.

Variable self : SimpleBacktester.
Variable position_size : Q.

(** The trade part of one iteration: the [if]/[elif] on the lagged signal.
    [None]: the Buy branch divides by a zero price. *)
Definition execute (ts : Z) (current_price : Q) (prev_signal : Z)
    (st : SimState) : option SimState :=
  if ((prev_signal =? 1)%Z && Qeq_bool (position st) 0)%bool then
    let trade_amount := balance st * position_size in
    if Qeq_bool current_price 0 then None
    else
      let position' := trade_amount / current_price in
      let commission_cost := trade_amount * commission self in
      let balance' := balance st - (trade_amount + commission_cost) in
      Some (mkState balance' position'
              (trades st ++ [mkTrade ts BUY current_price position' balance'])
              (equity_curve st))
  else if ((prev_signal =? -1)%Z && Qltb 0 (position st))%bool then
    let trade_value := position st * current_price in
    let commission_cost := trade_value * commission self in
    let balance' := balance st + (trade_value - commission_cost) in
    Some (mkState balance' 0
            (trades st ++
               [mkTrade ts SELL current_price (position st) balance'])
            (equity_curve st))
  else Some st.

(** Mark-to-market equity appended at the end of the iteration. *)
Definition mark (current_price : Q) (st : SimState) : SimState :=
  let current_equity :=
    balance st +
    (if Qltb 0 (position st) then position st * current_price else 0) in
  mkState (balance st) (position st) (trades st)
          (equity_curve st ++ [current_equity]).

(** The body of [for i in range(1, len(df))]. *)
Definition step (ts : Z) (current_price : Q) (prev_signal : Z)
    (st : SimState) : option SimState :=
  option_map (mark current_price) (execute ts current_price prev_signal st).

Definition bar_step (df : DataFrame) (acc : option SimState) (i : nat)
    : option SimState :=
  match acc with
  | Some st =>
      step (timestamp (iloc df i)) (close (iloc df i))
           (signal (iloc df (i - 1))) st
  | None => None
  end.

(** The state after the iterations [i = 1 .. n]. *)
Definition loop (df : DataFrame) (n : nat) : option SimState :=
  fold_left (bar_step df) (seq 1 n) (Some (init_state self)).

(** The whole loop: [range(1, len(df))]. *)
Definition simulate (df : DataFrame) : option SimState :=
  loop df (length df - 1).

(** [equity_curve[-1] = balance]. *)
Definition set_last (l : list Q) (x : Q) : list Q := removelast l ++ [x].

(** "Close any open position at the end": the balance and the equity
    curve after the [if position > 0] block.  The trade list is not
    touched. *)
Definition close_open_position (df : DataFrame) (st : SimState)
    : Q * list Q :=
  if Qltb 0 (position st) then
    let final_price := close (last df default_row) in
    let trade_value := position st * final_price in
    let commission_cost := trade_value * commission self in
    let balance' := balance st + (trade_value - commission_cost) in
    (balance', set_last (equity_curve st) balance')
  else (balance st, equity_curve st).

End Engine.

(** ** The pandas Series operations used by the metrics *)

(** A float that may be NaN by pandas' own rules on finite data. *)
Inductive num : Type := Fin (q : Q) | NaN.

Module Series.

(** [s.pct_change().dropna()]: [x_i / x_(i-1) - 1] for [i >= 1]; the first
    entry has no predecessor, is NaN and is dropped.  [None]: a divisor is
    zero. *)
Fixpoint pct_change_from (prev : Q) (l : list Q) : option (list Q) :=
  match l with
  | [] => Some []
  | x :: l' =>
      if Qeq_bool prev 0 then None
      else option_map (cons (x / prev - 1)) (pct_change_from x l')
  end.

Definition pct_change (l : list Q) : option (list Q) :=
  match l with
  | [] => Some []
  | x :: l' => pct_change_from x l'
  end.

Definition sum (l : list Q) : Q := fold_right Qplus 0 l.

Definition count (l : list Q) : Q := inject_Z (Z.of_nat (length l)).

(** [s.mean()], on a non-empty Series. *)
Definition mean (l : list Q) : Q := sum l / count l.

(** The square of [s.std()]: the sample variance, with [ddof = 1]; NaN
    ([None]) below two observations. *)
Definition var (l : list Q) : option Q :=
  if (length l <? 2)%nat then None
  else Some (sum (map (fun x => (x - mean l) * (x - mean l)) l)
             / (count l - 1)).

(** [s.std()]. *)
Definition std (l : list Q) : option R :=
  option_map (fun v => sqrt (Q2R v)) (var l).

(** [s.cumprod()]. *)
Fixpoint cumprod_from (acc : Q) (l : list Q) : list Q :=
  match l with
  | [] => []
  | x :: l' => (acc * x) :: cumprod_from (acc * x) l'
  end.

Definition cumprod (l : list Q) : list Q :=
  match l with
  | [] => []
  | x :: l' => x :: cumprod_from x l'
  end.

Definition fmax (m x : Q) : Q := if Qltb m x then x else m.
Definition fmin (m x : Q) : Q := if Qltb x m then x else m.

(** [s.expanding().max()]. *)
Fixpoint expanding_max_from (m : Q) (l : list Q) : list Q :=
  match l with
  | [] => []
  | x :: l' => fmax m x :: expanding_max_from (fmax m x) l'
  end.

Definition expanding_max (l : list Q) : list Q :=
  match l with
  | [] => []
  | x :: l' => x :: expanding_max_from x l'
  end.

(** [(a - b) / b], element by element.  [None]: a divisor is zero. *)
Fixpoint rel_diff (a b : list Q) : option (list Q) :=
  match a, b with
  | x :: a', y :: b' =>
      if Qeq_bool y 0 then None
      else option_map (cons ((x - y) / y)) (rel_diff a' b')
  | _, _ => Some []
  end.

(** [s.min()]: NaN on an empty Series. *)
Definition min (l : list Q) : num :=
  match l with
  | [] => NaN
  | x :: l' => Fin (fold_left fmin l' x)
  end.

End Series.

(** ** The metrics *)

(** [(1 + returns)]. *)
Definition one_plus (returns : list Q) : list Q := map (fun r => 1 + r) returns.

(** The "Max drawdown" block.  [None]: a running maximum is zero. *)
Definition max_drawdown_of (returns : list Q) : option num :=
  let cumulative := Series.cumprod (one_plus returns) in
  let running_max := Series.expanding_max cumulative in
  match Series.rel_diff cumulative running_max with
  | None => None
  | Some drawdown =>
      Some match Series.min drawdown with
           | Fin m => Fin (Qabs m * 100)
           | NaN => NaN
           end
  end.

(** The "Sharpe ratio (annualized)" block.  [returns.std() > 0] is false
    when the standard deviation is NaN. *)
Definition sharpe_ratio_of (returns : list Q) : R :=
  if (0 <? length returns)%nat then
    match Series.std returns with
    | Some s =>
        if Rlt_dec 0 s
        then (Q2R (Series.mean returns) / s * sqrt 252)%R
        else 0%R
    | None => 0%R
    end
  else 0%R.

(** [matching_sells = sell_trades[sell_trades['timestamp'] > buy['timestamp']]]. *)
Definition matching_sells (sell_trades : list Trade) (buy : Trade)
    : list Trade :=
  filter (fun s => (tr_timestamp buy <? tr_timestamp s)%Z) sell_trades.

(** [(sell['price'] - buy['price']) / buy['price']]. *)
Definition profit (buy sell : Trade) : option Q :=
  if Qeq_bool (tr_price buy) 0 then None
  else Some ((tr_price sell - tr_price buy) / tr_price buy).

(** The loop [for _, buy in buy_trades.iterrows()] that fills [profits]. *)
Fixpoint profits_of (sell_trades buy_trades : list Trade)
    : option (list Q) :=
  match buy_trades with
  | [] => Some []
  | buy :: rest =>
      match matching_sells sell_trades buy with
      | [] => profits_of sell_trades rest
      | sell :: _ =>
          match profit buy sell, profits_of sell_trades rest with
          | Some p, Some ps => Some (p :: ps)
          | _, _ => None
          end
      end
  end.

(** The "Win rate" block. *)
Definition win_rate_of (trades : list Trade) : option Q :=
  if (0 <? length trades)%nat then
    let buy_trades := filter is_buy trades in
    let sell_trades := filter is_sell trades in
    if ((0 <? length buy_trades)%nat && (0 <? length sell_trades)%nat)%bool
    then
      match profits_of sell_trades buy_trades with
      | None => None
      | Some [] => Some 0
      | Some profits =>
          Some (Series.count (filter (fun p => Qltb 0 p) profits)
                / Series.count profits * 100)
      end
    else Some 0
  else Some 0.

(** ** [run_backtest] *)

(** The dataclass [BacktestResult].  Its fields [equity_curve] and [trades]
    are [res_equity_curve] and [res_trades] here, the plain names being
    those of the loop's variables. *)
Record BacktestResult : Type := mkResult {
  total_return : Q;
  sharpe_ratio : R;
  max_drawdown : num;
  win_rate : Q;
  total_trades : nat;
  final_balance : Q;
  res_equity_curve : list (Z * Q);
  res_trades : list Trade
}.

(** [ValueError] is what [pd.Series(equity_curve, index=df.index)] raises
    when the lengths differ.  [InvalidInput] and [InvalidPriceData] are the
    error kinds that the specification names; the program has no [raise]
    statement. *)
Inductive exn : Type := ValueError | InvalidInput | InvalidPriceData.

Inductive outcome (A : Type) : Type :=
  | Returned (a : A)
  | Raised (e : exn)
  | DivByZero.

Arguments Returned {A} a.
Arguments Raised {A} e.
Arguments DivByZero {A}.

(** The metrics part of [run_backtest], from the balance and equity curve
    left by the liquidation block and from the trade list. *)
Definition metrics (self : SimpleBacktester) (df : DataFrame)
    (balance : Q) (equity_curve : list Q) (trades : list Trade)
    : outcome BacktestResult :=
  if negb (length equity_curve =? length df)%nat then Raised ValueError
  else
    let equity_series := combine (map timestamp df) equity_curve in
    match Series.pct_change equity_curve with
    | None => DivByZero
    | Some returns =>
        if Qeq_bool (initial_balance self) 0 then DivByZero
        else
          let total_return := (balance / initial_balance self - 1) * 100 in
          let sharpe_ratio := sharpe_ratio_of returns in
          match max_drawdown_of returns, win_rate_of trades with
          | Some max_drawdown, Some win_rate =>
              Returned (mkResult total_return sharpe_ratio max_drawdown
                          win_rate (length trades) balance equity_series
                          trades)
          | _, _ => DivByZero
          end
    end.

(** [df] is the frame with its [signal] column already set: the call
    [signal_func(df)] is the caller's. *)
Definition run_backtest (self : SimpleBacktester) (df : DataFrame)
    (position_size : Q) : outcome BacktestResult :=
  match simulate self position_size df with
  | None => DivByZero
  | Some st =>
      let (balance, equity_curve) :=
        close_open_position self df st in
      metrics self df balance equity_curve (trades st)
  end.

(** ** Notions used to state the properties *)

(** A lagged signal that does not match the state: Buy while a position is
    open, Sell while flat, or Hold (any value other than 1 and -1). *)
Definition mismatched (sig : Z) (st : SimState) : Prop :=
  (sig = 1%Z /\ 0 < position st) \/
  (sig = (-1)%Z /\ position st == 0) \/
  (sig <> 1%Z /\ sig <> (-1)%Z).

(** The trade, if any, that iteration [i] appends to the trade list. *)
Definition trade_at (self : SimpleBacktester) (ps : Q) (df : DataFrame)
    (i : nat) : option Trade :=
  match loop self ps df (i - 1) with
  | Some st =>
      match execute self ps (timestamp (iloc df i)) (close (iloc df i))
                    (signal (iloc df (i - 1))) st with
      | Some st' => nth_error (trades st') (length (trades st))
      | None => None
      end
  | None => None
  end.

(** A trade list made of completed round trips only: (BUY SELL)*. *)
Inductive closed : list Trade -> Prop :=
  | closed_nil : closed []
  | closed_pair b s l :
      tr_type b = BUY -> tr_type s = SELL -> closed l ->
      closed (b :: s :: l).

(** The three situations of a run.  [Flat]: no position, every Buy of the
    list has its Sell.  [Holding]: a position is open and the last trade is
    the Buy that opened it.  [Stuck]: the last Buys bought nothing or a
    negative quantity (zero or negative trade amount, negative price); no
    Sell can follow them. *)
Inductive phase (ps : Q) (st : SimState) : Prop :=
  | Flat :
      position st == 0 -> closed (trades st) -> phase ps st
  | Holding l b :
      0 < position st -> trades st = l ++ [b] -> closed l ->
      tr_type b = BUY -> tr_quantity b = position st -> phase ps st
  | Stuck l bs :
      ~ 0 < position st ->
      (position st == 0 -> balance st * ps == 0) ->
      trades st = l ++ bs -> closed l -> bs <> [] ->
      Forall (fun b => tr_type b = BUY /\ ~ 0 < tr_quantity b) bs ->
      phase ps st.

(** In a trade list, a Buy that bought a positive quantity is directly
    followed by a Sell unless it is the last entry. *)
Definition buy_then_sell (l : list Trade) : Prop :=
  forall l1 b t l2,
    l = l1 ++ b :: t :: l2 ->
    tr_type b = BUY -> 0 < tr_quantity b -> tr_type t = SELL.

(** The frame with the signal of its last row replaced. *)
Definition set_last_signal (df : DataFrame) (s : Z) : DataFrame :=
  match df with
  | [] => []
  | _ :: _ =>
      removelast df ++
      [mkRow (timestamp (last df default_row))
             (close (last df default_row)) s]
  end.

Definition trade_list (t : option Trade) : list Trade :=
  match t with Some x => [x] | None => [] end.






(** The product of [(1 + r_j)] over [j <= k]. *)
Definition growth (returns : list Q) (k : nat) : Q :=
  fold_right Qmult 1 (firstn (S k) (one_plus returns)).

(** ** Concrete inputs *)

(** The scenario of the specification: prices 100,100,105,105,95 and
    signals 0,1,0,-1,0, no commission, full position size. *)
Definition scenario_df : DataFrame :=
  [mkRow 1 100 0; mkRow 2 100 1; mkRow 3 105 0; mkRow 4 105 (-1);
   mkRow 5 95 0].

(** Inputs of the default call of [main.py]: balance 10000, commission
    0.001, position size 1.0; a Buy signal on the first of two bars. *)
Definition default_backtester : SimpleBacktester :=
  mkBacktester 10000 (1 # 1000).

Definition buy_df : DataFrame := [mkRow 1 100 1; mkRow 2 100 0].


(** The scenario frame with other rows after its third row. *)
Definition scenario_df' : DataFrame :=
  [mkRow 1 100 0; mkRow 2 100 1; mkRow 3 105 5; mkRow 4 1 1;
   mkRow 5 7 1; mkRow 6 9 0].

(** One round trip: Buy at 100 on the second bar, Sell at 110 on the
    third. *)
Definition round_trip_df : DataFrame :=
  [mkRow 1 100 1; mkRow 2 100 (-1); mkRow 3 110 0].

(** Hold signals only. *)
Definition hold_df : DataFrame := [mkRow 1 100 0; mkRow 2 120 0; mkRow 3 90 0].

(** The preconditions that the specification lists for [run_backtest].
    The condition on the indices holds by construction here: the frame
    carries its signal column. *)
Definition precondition (self : SimpleBacktester) (df : DataFrame) (ps : Q)
    : Prop :=
  (2 <= length df)%nat /\ 0 <= commission self < 1 /\ 0 < ps <= 1 /\
  0 < initial_balance self.

(** ** Further notions on the trade list and the drawdown *)

(** In a trade list, every Sell comes directly after a Buy of the same,
    positive quantity, and the balance recorded with the Sell is the
    balance recorded with that Buy plus the proceeds of the sale at the
    commission rate [c]. *)
Definition sell_after_buy (c : Q) (l : list Trade) : Prop :=
  forall l1 s l2,
    l = l1 ++ s :: l2 -> tr_type s = SELL ->
    exists l0 b,
      l1 = l0 ++ [b] /\ tr_type b = BUY /\
      tr_quantity s = tr_quantity b /\ 0 < tr_quantity b /\
      tr_balance s
      = tr_balance b +
        (tr_quantity b * tr_price s - tr_quantity b * tr_price s * c).


(** ** pandas Series with NaN entries: [analysis/technical_indicators.py] *)

(** A float Series that may hold NaN: [None] is NaN. *)
Definition fseries : Type := list (option Q).

(** Element by element, over two Series of the same index. *)
Fixpoint zip_with {A B C : Type} (f : A -> B -> C) (a : list A) (b : list B)
    : list C :=
  match a, b with
  | x :: a', y :: b' => f x y :: zip_with f a' b'
  | _, _ => []
  end.

(** An arithmetic operation on two floats: NaN if either is NaN. *)
Definition lift2 (f : Q -> Q -> Q) (x y : option Q) : option Q :=
  match x, y with
  | Some a, Some b => Some (f a b)
  | _, _ => None
  end.

(** A comparison of two floats: false if either is NaN. *)
Definition cmp2 (f : Q -> Q -> bool) (x y : option Q) : bool :=
  match x, y with
  | Some a, Some b => f a b
  | _, _ => false
  end.

(** [s.shift()]: every entry moves one place down, the first becomes NaN
    and the last is dropped. *)
Definition shift {A : Type} (nan : A) (s : list A) : list A :=
  match s with
  | [] => []
  | _ :: _ => nan :: removelast s
  end.

(** [s.diff()]. *)
Definition diff (s : fseries) : fseries :=
  zip_with (lift2 Qminus) s (shift None s).

Module Rolling.

(** The window of [s.rolling(window=n)] at position [i]: the entries
    [i - n + 1 .. i], fewer at the start of the Series. *)
Definition window {A : Type} (n i : nat) (s : list A) : list A :=
  skipn (S i - n) (firstn (S i) s).

Fixpoint all_some (w : list (option Q)) : option (list Q) :=
  match w with
  | [] => Some []
  | Some x :: w' => option_map (cons x) (all_some w')
  | None :: _ => None
  end.

(** The observations of a window, when it has [n] of them
    ([min_periods] is the window size) and at least one. *)
Definition observations (n : nat) (w : list (option Q)) : option (list Q) :=
  if ((n =? 0) || (length w <? n))%nat then None else all_some w.

Definition apply (f : list Q -> Q) (n : nat) (s : fseries) : fseries :=
  map (fun i => option_map f (observations n (window n i s)))
      (seq 0 (length s)).

(** [s.rolling(window=n).mean()]. *)
Definition mean : nat -> fseries -> fseries := apply Series.mean.

End Rolling.

(** [s.ewm(span=span, adjust=False).mean()] on a Series without NaN:
    [y_0 = x_0] and [y_t = (1 - alpha) * y_(t-1) + alpha * x_t] with
    [alpha = 2 / (span + 1)].  pandas refuses a span below 1. *)
Definition ewm_alpha (span : nat) : Q := 2 / (inject_Z (Z.of_nat span) + 1).

Fixpoint ewm_from (alpha y : Q) (l : list Q) : list Q :=
  match l with
  | [] => []
  | x :: l' =>
      let y' := (1 - alpha) * y + alpha * x in
      y' :: ewm_from alpha y' l'
  end.

Definition ewm_mean (span : nat) (l : list Q) : outcome (list Q) :=
  if (span <? 1)%nat then Raised ValueError
  else Returned match l with
                | [] => []
                | x :: l' => x :: ewm_from (ewm_alpha span) x l'
                end.

(** ** The indicators *)

Definition calculate_sma (prices : fseries) (period : nat) : fseries :=
  Rolling.mean period prices.

Definition calculate_ema (prices : list Q) (period : nat)
    : outcome (list Q) :=
  ewm_mean period prices.

(** The columns [macd], [signal] and [histogram]. *)
Record Macd : Type := mkMacd {
  macd_line : list Q;
  macd_signal : list Q;
  macd_histogram : list Q
}.

Definition calculate_macd (prices : list Q)
    (fast_period slow_period signal_period : nat) : outcome Macd :=
  match ewm_mean fast_period prices with
  | Returned ema_fast =>
      match ewm_mean slow_period prices with
      | Returned ema_slow =>
          let macd := zip_with Qminus ema_fast ema_slow in
          match ewm_mean signal_period macd with
          | Returned signal =>
              Returned (mkMacd macd signal (zip_with Qminus macd signal))
          | Raised e => Raised e
          | DivByZero => DivByZero
          end
      | Raised e => Raised e
      | DivByZero => DivByZero
      end
  | Raised e => Raised e
  | DivByZero => DivByZero
  end.

(** A float with the IEEE special values.  Zero has no sign here: a
    division by zero gives the infinity of the sign of the dividend. *)
Inductive xfloat : Type :=
  | XFin (q : Q)
  | XPInf
  | XNInf
  | XNaN.

Definition xfloat_of (x : option Q) : xfloat :=
  match x with Some q => XFin q | None => XNaN end.

Definition xneg (a : xfloat) : xfloat :=
  match a with
  | XFin x => XFin (- x)
  | XPInf => XNInf
  | XNInf => XPInf
  | XNaN => XNaN
  end.

Definition xadd (a b : xfloat) : xfloat :=
  match a, b with
  | XNaN, _ | _, XNaN => XNaN
  | XFin x, XFin y => XFin (x + y)
  | XPInf, XNInf | XNInf, XPInf => XNaN
  | XPInf, _ | _, XPInf => XPInf
  | XNInf, _ | _, XNInf => XNInf
  end.

Definition xsub (a b : xfloat) : xfloat := xadd a (xneg b).

Definition xdiv (a b : xfloat) : xfloat :=
  match a, b with
  | XNaN, _ | _, XNaN => XNaN
  | XFin x, XFin y =>
      if Qeq_bool y 0 then
        if Qltb 0 x then XPInf else if Qltb x 0 then XNInf else XNaN
      else XFin (x / y)
  | XFin _, _ => XFin 0
  | XPInf, XFin y => if Qltb y 0 then XNInf else XPInf
  | XNInf, XFin y => if Qltb y 0 then XPInf else XNInf
  | _, _ => XNaN
  end.

(** [delta.where(delta > 0, 0)] and [delta.where(delta < 0, 0)]: the
    entry where the condition holds, 0 elsewhere, also where it is NaN. *)
Definition where_positive (delta : fseries) : list Q :=
  map (fun d => match d with
                | Some x => if Qltb 0 x then x else 0
                | None => 0
                end) delta.

Definition where_negative (delta : fseries) : list Q :=
  map (fun d => match d with
                | Some x => if Qltb x 0 then x else 0
                | None => 0
                end) delta.

Definition calculate_rsi (prices : fseries) (period : nat) : list xfloat :=
  let delta := diff prices in
  let gain := Rolling.mean period (map Some (where_positive delta)) in
  let loss :=
    Rolling.mean period (map Some (map Qopp (where_negative delta))) in
  let rs := zip_with (fun g l => xdiv (xfloat_of g) (xfloat_of l)) gain loss in
  map (fun x => xsub (XFin 100) (xdiv (XFin 100) (xadd (XFin 1) x))) rs.

(** The largest of the floats of a row that are not NaN; NaN if all are. *)
Definition row_max (row : list (option Q)) : option Q :=
  fold_left (fun m x =>
               match m, x with
               | Some a, Some b => Some (Series.fmax a b)
               | None, _ => x
               | _, None => m
               end) row None.

Definition fabs (x : option Q) : option Q := option_map Qabs x.

Definition true_range (high low close : fseries) : fseries :=
  let tr1 := zip_with (lift2 Qminus) high low in
  let tr2 := map fabs (zip_with (lift2 Qminus) high (shift None close)) in
  let tr3 := map fabs (zip_with (lift2 Qminus) low (shift None close)) in
  zip_with (fun a bc => row_max [a; fst bc; snd bc]) tr1
           (zip_with pair tr2 tr3).

Definition calculate_atr (high low close : fseries) (period : nat)
    : fseries :=
  Rolling.mean period (true_range high low close).

(** ** The strategies: [strategies/signals.py] *)

(** [signals[mask] = v]. *)
Definition assign (signals : list Z) (mask : list bool) (v : Z) : list Z :=
  zip_with (fun s (m : bool) => if m then v else s) signals mask.

(** The comparisons [>], [<=], [<], [>=] of two Series, entry by entry. *)
Definition fgt (a b : fseries) : list bool :=
  zip_with (cmp2 (fun x y => Qltb y x)) a b.
Definition fle (a b : fseries) : list bool := zip_with (cmp2 Qle_bool) a b.
Definition flt (a b : fseries) : list bool := zip_with (cmp2 Qltb) a b.
Definition fge (a b : fseries) : list bool :=
  zip_with (cmp2 (fun x y => Qle_bool y x)) a b.

(** [simple_ma_crossover], on the [close] column of the frame. *)
Definition simple_ma_crossover (close : list Q) (fast_period slow_period : nat)
    : list Z :=
  let fast_ma := calculate_sma (map Some close) fast_period in
  let slow_ma := calculate_sma (map Some close) slow_period in
  let signals := repeat 0%Z (length close) in
  let buy_signal :=
    zip_with andb (fgt fast_ma slow_ma)
             (fle (shift None fast_ma) (shift None slow_ma)) in
  let signals := assign signals buy_signal 1%Z in
  let sell_signal :=
    zip_with andb (flt fast_ma slow_ma)
             (fge (shift None fast_ma) (shift None slow_ma)) in
  assign signals sell_signal (-1)%Z.

(** [macd_strategy]: [calculate_macd] with its default periods. *)
Definition macd_strategy (close : list Q) : outcome (list Z) :=
  match calculate_macd close 12 26 9 with
  | Returned macd_data =>
      let macd := map Some (macd_line macd_data) in
      let signal := map Some (macd_signal macd_data) in
      let signals := repeat 0%Z (length close) in
      let buy_signal :=
        zip_with andb (fgt macd signal)
                 (fle (shift None macd) (shift None signal)) in
      let signals := assign signals buy_signal 1%Z in
      let sell_signal :=
        zip_with andb (flt macd signal)
                 (fge (shift None macd) (shift None signal)) in
      Returned (assign signals sell_signal (-1)%Z)
  | Raised e => Raised e
  | DivByZero => DivByZero
  end.

(** The frame that [run_backtest] works on: the data with the signals as
    its [signal] column. *)
Definition with_signals (data : list (Z * Q)) (signals : list Z) : DataFrame :=
  zip_with (fun bar s => mkRow (fst bar) (snd bar) s) data signals.

(** [run_backtest(data, signal_func, position_size)] for a signal function
    that reads the [close] column: the signals are computed first and an
    error of the signal function is an error of the run. *)
Definition run_strategy (self : SimpleBacktester) (data : list (Z * Q))
    (signal_func : list Q -> outcome (list Z)) (position_size : Q)
    : outcome BacktestResult :=
  match signal_func (map snd data) with
  | Returned signals =>
      run_backtest self (with_signals data signals) position_size
  | Raised e => Raised e
  | DivByZero => DivByZero
  end.


(** The comparisons of a float with a number: false on NaN. *)
Definition xgt (a : xfloat) (t : Q) : bool :=
  match a with
  | XFin x => Qltb t x
  | XPInf => true
  | XNInf | XNaN => false
  end.

Definition xle (a : xfloat) (t : Q) : bool :=
  match a with
  | XFin x => Qle_bool x t
  | XNInf => true
  | XPInf | XNaN => false
  end.

Definition xlt (a : xfloat) (t : Q) : bool :=
  match a with
  | XFin x => Qltb x t
  | XNInf => true
  | XPInf | XNaN => false
  end.

Definition xge (a : xfloat) (t : Q) : bool :=
  match a with
  | XFin x => Qle_bool t x
  | XPInf => true
  | XNInf | XNaN => false
  end.

(** [rsi_strategy], on the [close] column of the frame. *)
Definition rsi_strategy (close : list Q) (rsi_period : nat)
    (oversold overbought : Q) : list Z :=
  let rsi := calculate_rsi (map Some close) rsi_period in
  let signals := repeat 0%Z (length close) in
  let buy_signal :=
    zip_with andb (map (fun x => xgt x oversold) rsi)
             (map (fun x => xle x oversold) (shift XNaN rsi)) in
  let signals := assign signals buy_signal 1%Z in
  let sell_signal :=
    zip_with andb (map (fun x => xlt x overbought) rsi)
             (map (fun x => xge x overbought) (shift XNaN rsi)) in
  assign signals sell_signal (-1)%Z.

(** ** Bollinger bands and the stochastic oscillator *)





(** The smallest and the largest observation of a window. *)
Definition window_min (xs : list Q) : Q :=
  fold_right Series.fmin (hd 0 xs) xs.

Definition window_max (xs : list Q) : Q :=
  fold_right Series.fmax (hd 0 xs) xs.

Definition xmul (a b : xfloat) : xfloat :=
  match a, b with
  | XNaN, _ | _, XNaN => XNaN
  | XFin x, XFin y => XFin (x * y)
  | XFin x, XPInf | XPInf, XFin x =>
      if Qltb 0 x then XPInf else if Qltb x 0 then XNInf else XNaN
  | XFin x, XNInf | XNInf, XFin x =>
      if Qltb 0 x then XNInf else if Qltb x 0 then XPInf else XNaN
  | XPInf, XPInf | XNInf, XNInf => XPInf
  | XPInf, XNInf | XNInf, XPInf => XNInf
  end.

(** What a rolling window reads of a float: pandas turns the infinities
    into NaN before it rolls. *)
Definition finite (a : xfloat) : option Q :=
  match a with
  | XFin x => Some x
  | _ => None
  end.

(** The columns [k] and [d]. *)
Record Stochastic : Type := mkStochastic {
  stoch_k : list xfloat;
  stoch_d : fseries
}.

Definition calculate_stochastic (high low close : fseries)
    (k_period d_period : nat) : Stochastic :=
  let lowest_low := Rolling.apply window_min k_period low in
  let highest_high := Rolling.apply window_max k_period high in
  let k :=
    zip_with
      (fun c lh =>
         xmul (XFin 100)
              (xdiv (xsub (xfloat_of c) (xfloat_of (fst lh)))
                    (xsub (xfloat_of (snd lh)) (xfloat_of (fst lh)))))
      close (zip_with pair lowest_low highest_high) in
  let d := Rolling.mean d_period (map finite k) in
  mkStochastic k d.

(** ** Notions used to state the properties of the indicators *)

(** The mean of the last [n] closes up to bar [i]. *)
Definition sma_at (close : list Q) (n i : nat) : Q :=
  Series.mean (Rolling.window n i close).

(** Every price and the next one are related by [R]. *)
Definition consecutive (R : Q -> Q -> Prop) (prices : list Q) : Prop :=
  forall j a b,
    nth_error prices j = Some a -> nth_error prices (S j) = Some b -> R a b.


(** The RSI of an average gain [g] and an average loss [l]. *)
Definition rsi_of (g l : xfloat) : xfloat :=
  xsub (XFin 100) (xdiv (XFin 100) (xadd (XFin 1) (xdiv g l))).

(** ** The cache: [utils/helpers.py] *)

Module Helpers.

Import Ascii String.
#[local] Open Scope string_scope.

(** [str(n)] of a Python int. *)
Definition str (n : Z) : string :=
  DecimalString.NilEmpty.string_of_int (Z.to_int n).

(** [if since:] on an optional int: false for [None] and for 0. *)
Definition truthy (o : option Z) : bool :=
  match o with
  | Some n => negb (n =? 0)%Z
  | None => false
  end.

(** The value of an optional argument that was passed. *)
Definition given (o : option Z) : list Z :=
  match o with
  | Some n => [n]
  | None => []
  end.

(** [key_string] of [generate_cache_key]: the parts joined by ["_"]. *)
Definition key_string (symbol timeframe : string) (since limit : option Z)
    : string :=
  let key_parts := [symbol; timeframe] in
  let key_parts :=
    if truthy since then (key_parts ++ map str (given since))%list
    else key_parts in
  let key_parts :=
    if truthy limit then (key_parts ++ map str (given limit))%list
    else key_parts in
  concat "_" key_parts.

Section CacheKey.

(** [hashlib.md5(s.encode()).hexdigest()]. *)
Variable md5 : string -> string.

Definition generate_cache_key (symbol timeframe : string)
    (since limit : option Z) : string :=
  md5 (key_string symbol timeframe since limit).

End CacheKey.

(** The optional arguments that reach the key: the ones that are given
    and not zero, in the order [since], [limit]. *)
Definition key_numbers (since limit : option Z) : list Z :=
  ((if truthy since then given since else [])
   ++ (if truthy limit then given limit else []))%list.

(** The character that separates the parts of a key. *)
Definition separator : Ascii.ascii := "_"%char.

Fixpoint occurs (c : Ascii.ascii) (s : string) : Prop :=
  match s with
  | EmptyString => False
  | String d s' => c = d \/ occurs c s'
  end.

(** The text that follows symbol and timeframe in a key. *)
Fixpoint tail_of (l : list string) : string :=
  match l with
  | [] => ""
  | x :: l' => String separator (x ++ tail_of l')
  end.

Section CacheFiles.

(** What is cached: the JSON value of a list of candles.  Python's
    [json] reads back the numbers it has written, so a file holds the
    value itself. *)
Variable data : Type.

(** A file of the cache directory: what [json.load] reads from it
    ([None]: no valid JSON, or [null]) and the time of its last change,
    in hours. *)
Record File : Type := mkFile {
  content : option data;
  mtime : Q
}.

(** The cache directory, by file name. *)
Definition Dir : Type := string -> option File.

Definition write (dir : Dir) (path : string) (f : File) : Dir :=
  fun p => if string_dec p path then Some f else dir p.

(** The file name of [get_cache_path], inside the cache directory. *)
Definition get_cache_path (cache_key exchange : string) : string :=
  exchange ++ "_" ++ cache_key ++ ".json".

(** [load_from_cache] at the time [now]. *)
Definition load_from_cache (dir : Dir) (now : Q) (cache_key exchange : string)
    (max_age_hours : option Z) : option data :=
  let cache_path := get_cache_path cache_key exchange in
  match dir cache_path with
  | None => None
  | Some f =>
      let expired :=
        match max_age_hours with
        | Some h => truthy max_age_hours && Qltb (inject_Z h) (now - mtime f)
        | None => false
        end in
      if expired then None else content f
  end.

(** [save_to_cache] at the time [now]; when the file cannot be opened
    for writing the directory stays as it is. *)
Definition save_to_cache (dir : Dir) (now : Q) (writable : bool)
    (cache_key exchange : string) (d : data) : Dir :=
  let cache_path := get_cache_path cache_key exchange in
  if writable then write dir cache_path (mkFile (Some d) now) else dir.

End CacheFiles.

End Helpers.

(** ** Fetching with the cache: [data/fetch_data.py] *)

Module FetchData.

Import Ascii String Helpers.
#[local] Open Scope string_scope.

Section Fetcher.

Variable md5 : string -> string.
Variable data : Type.

(** The arguments of a request to the exchange. *)
Definition Request : Type :=
  (string * string * option Z * option Z)%type.

(** What a fetch reads and changes: the cache directory, the clock (in
    hours), whether cache files can be written, and the requests that
    have reached the exchange. *)
Record World : Type := mkWorld {
  dir : Dir data;
  now : Q;
  writable : bool;
  calls : list Request
}.

(** The fetcher; [exchange] is ccxt's [fetch_ohlcv] of the exchange,
    [None] when it raises. *)
Record CryptoDataFetcher : Type := mkFetcher {
  exchange_name : string;
  use_cache : bool;
  cache_max_age_hours : option Z;
  exchange : Request -> option data
}.

(** [CryptoDataFetcher.fetch_ohlcv]: the new world and the candles that
    the returned frame is built from, [None] when it raises. *)
Definition fetch_ohlcv (self : CryptoDataFetcher) (w : World)
    (symbol timeframe : string) (since limit : option Z)
    : World * option data :=
  let cache_key := generate_cache_key md5 symbol timeframe since limit in
  let cached_data :=
    if use_cache self
    then load_from_cache data (dir w) (now w) cache_key (exchange_name self)
           (cache_max_age_hours self)
    else None in
  match cached_data with
  | Some cached => (w, Some cached)
  | None =>
      let w := mkWorld (dir w) (now w) (writable w)
                 (calls w ++ [(symbol, timeframe, since, limit)])%list in
      match exchange self (symbol, timeframe, since, limit) with
      | Some ohlcv =>
          let w :=
            if use_cache self
            then mkWorld (save_to_cache data (dir w) (now w) (writable w)
                            cache_key (exchange_name self) ohlcv)
                   (now w) (writable w) (calls w)
            else w in
          (w, Some ohlcv)
      | None => (w, None)
      end
  end.

End Fetcher.

(** The same world at a later time. *)
Definition at_time {data : Type} (w : World data) (t : Q) : World data :=
  mkWorld data (dir data w) t (writable data w) (calls data w).

End FetchData.

(** ** Further concrete inputs *)


(** Timestamps and closes before the signals are computed: a market that
    does not move, and one that rises and falls. *)
Definition flat_data : list (Z * Q) := [(1%Z, 100); (2%Z, 100); (3%Z, 100)].

Definition wave : list Q := [1; 2; 3; 1].

(** * Properties *)

(** ** Comparisons *)

Lemma Qltb_lt (x y : Q) : Qltb x y = true <-> x < y.
Proof.
  unfold Qltb. rewrite negb_true_iff, <- not_true_iff_false, Qle_bool_iff.
  split; [apply Qnot_le_lt | apply Qlt_not_le].
Qed.

Lemma Qltb_ge (x y : Q) : Qltb x y = false <-> y <= x.
Proof.
  unfold Qltb. rewrite negb_false_iff. apply Qle_bool_iff.
Qed.

Lemma Qeq_bool_false (x y : Q) : Qeq_bool x y = false <-> ~ x == y.
Proof.
  rewrite <- not_true_iff_false, Qeq_bool_iff. reflexivity.
Qed.

(** ** The loop, one bar at a time *)

Lemma loop_0 self ps df : loop self ps df 0 = Some (init_state self).
Proof. reflexivity. Qed.

Lemma loop_S self ps df n :
  loop self ps df (S n) = bar_step self ps df (loop self ps df n) (S n).
Proof.
  unfold loop. rewrite seq_S, fold_left_app. reflexivity.
Qed.

(** Induction principle over the bars of a run, for properties of balance,
    position and trade list. *)
Lemma loop_ind self ps df (P : nat -> SimState -> Prop) :
  P 0%nat (init_state self) ->
  (forall n st st',
      loop self ps df n = Some st -> P n st ->
      execute self ps (timestamp (iloc df (S n))) (close (iloc df (S n)))
              (signal (iloc df n)) st = Some st' ->
      P (S n) (mark (close (iloc df (S n))) st')) ->
  forall n st, loop self ps df n = Some st -> P n st.
Proof.
  intros H0 HS. induction n as [|n IH]; intros st Hst.
  - rewrite loop_0 in Hst. injection Hst as <-. exact H0.
  - rewrite loop_S in Hst.
    destruct (loop self ps df n) as [st0|] eqn:E; [|discriminate].
    simpl in Hst. rewrite Nat.sub_0_r in Hst. unfold step in Hst.
    destruct (execute _ _ _ _ _ st0) as [st1|] eqn:E1; [|discriminate].
    simpl in Hst. injection Hst as <-.
    eapply HS; eauto.
Qed.

(** ** One iteration *)

Lemma execute_cases self ps ts price sig st st' :
  execute self ps ts price sig st = Some st' ->
  (sig = 1%Z /\ position st == 0 /\ ~ price == 0 /\
   st' = mkState
           (balance st - (balance st * ps + balance st * ps * commission self))
           (balance st * ps / price)
           (trades st ++
              [mkTrade ts BUY price (balance st * ps / price)
                 (balance st -
                  (balance st * ps + balance st * ps * commission self))])
           (equity_curve st)) \/
  (sig = (-1)%Z /\ 0 < position st /\
   st' = mkState
           (balance st +
            (position st * price - position st * price * commission self))
           0
           (trades st ++
              [mkTrade ts SELL price (position st)
                 (balance st +
                  (position st * price -
                   position st * price * commission self))])
           (equity_curve st)) \/
  (st' = st /\ ~ (sig = 1%Z /\ position st == 0) /\
   ~ (sig = (-1)%Z /\ 0 < position st)).
Proof.
  unfold execute.
  destruct (Z.eqb_spec sig 1) as [E1|E1];
    destruct (Qeq_bool (position st) 0) eqn:Ep; simpl.
  - destruct (Qeq_bool price 0) eqn:Epr; [discriminate|].
    intros [= <-]. left.
    apply Qeq_bool_iff in Ep. apply Qeq_bool_false in Epr. auto.
  - apply Qeq_bool_false in Ep. subst sig. simpl.
    intros [= <-]. right; right. repeat split; [tauto | intros [? _]; lia].
  - apply Qeq_bool_iff in Ep.
    destruct (Z.eqb_spec sig (-1)) as [E2|E2]; simpl.
    + destruct (Qltb 0 (position st)) eqn:El.
      * apply Qltb_lt in El. intros [= <-]. right; left. auto.
      * intros [= <-]. right; right. repeat split; [tauto|].
        intros [_ H]. rewrite Ep in H. revert H. apply Qlt_irrefl.
    + intros [= <-]. right; right. repeat split; tauto.
  - destruct (Z.eqb_spec sig (-1)) as [E2|E2]; simpl.
    + destruct (Qltb 0 (position st)) eqn:El.
      * apply Qltb_lt in El. intros [= <-]. right; left. auto.
      * apply Qltb_ge in El. intros [= <-]. right; right.
        repeat split; [tauto|]. intros [_ H]. revert H. apply Qle_not_lt, El.
    + intros [= <-]. right; right. repeat split; tauto.
Qed.

(** A mismatched signal leaves the state as it is. *)
Lemma execute_mismatched self ps ts price sig st :
  mismatched sig st -> execute self ps ts price sig st = Some st.
Proof.
  unfold mismatched, execute. intros [[-> Hp] | [[-> Hp] | [H1 H2]]].
  - assert (Qeq_bool (position st) 0 = false) as ->.
    { apply Qeq_bool_false. intros E. rewrite E in Hp.
      revert Hp. apply Qlt_irrefl. }
    reflexivity.
  - assert (Qltb 0 (position st) = false) as ->.
    { apply Qltb_ge. rewrite Hp. apply Qle_refl. }
    simpl. reflexivity.
  - apply Z.eqb_neq in H1, H2. rewrite H1, H2. reflexivity.
Qed.

(** ** The phases of a run *)

Lemma closed_app l1 l2 : closed l1 -> closed l2 -> closed (l1 ++ l2).
Proof.
  induction 1; simpl; auto. intros. constructor; auto.
Qed.

Lemma zero_quotient (x y : Q) : ~ y == 0 -> x / y == 0 -> x == 0.
Proof.
  intros Hy H. setoid_replace x with (x / y * y) by (field; exact Hy).
  rewrite H. ring.
Qed.

Lemma phase_init self ps : phase ps (init_state self).
Proof. apply Flat; simpl; [reflexivity | constructor]. Qed.

Lemma phase_mark ps price st : phase ps st -> phase ps (mark price st).
Proof.
  intros [H1 H2 | l b H1 H2 H3 H4 H5 | l bs H1 H2 H3 H4 H5 H6].
  - apply Flat; assumption.
  - eapply Holding; eassumption.
  - eapply Stuck; eassumption.
Qed.

Lemma phase_execute self ps ts price sig st st' :
  phase ps st -> execute self ps ts price sig st = Some st' -> phase ps st'.
Proof.
  intros Hph He.
  apply execute_cases in He.
  destruct He as [(-> & Hp & Hpr & ->) | [(-> & Hp & ->) | (-> & _ & _)]];
    [| |exact Hph].
  - (* Buy *)
    destruct (Qlt_le_dec 0 (balance st * ps / price)) as [Hq|Hq].
    + destruct Hph as [H1 H2 | l b H1 H2 H3 H4 H5 | l bs H1 H2 H3 H4 H5 H6].
      * eapply Holding; simpl; eauto.
      * exfalso. rewrite Hp in H1. revert H1. apply Qlt_irrefl.
      * exfalso. apply H2 in Hp. revert Hq. apply Qle_not_lt.
        setoid_replace (balance st * ps / price) with 0; [apply Qle_refl|].
        rewrite Hp. field. exact Hpr.
    + assert (Hz : balance st * ps / price == 0 ->
                   (balance st -
                    (balance st * ps + balance st * ps * commission self))
                   * ps == 0).
      { intros Hz. apply zero_quotient in Hz; [|exact Hpr].
        setoid_replace
          ((balance st -
            (balance st * ps + balance st * ps * commission self)) * ps)
          with (balance st * ps
                - (balance st * ps) * ps
                - (balance st * ps) * commission self * ps) by ring.
        rewrite Hz. ring. }
      destruct Hph as [H1 H2 | l b H1 H2 H3 H4 H5 | l bs H1 H2 H3 H4 H5 H6].
      * eapply (Stuck ps _ (trades st) [_]); simpl;
          auto using Qle_not_lt; try discriminate.
      * exfalso. rewrite Hp in H1. revert H1. apply Qlt_irrefl.
      * eapply (Stuck ps _ l (bs ++ [_])); simpl;
          auto using Qle_not_lt.
        -- rewrite H3, <- app_assoc. reflexivity.
        -- destruct bs; discriminate.
        -- apply Forall_app. split; [exact H6|].
           constructor; [|constructor]. simpl. auto using Qle_not_lt.
  - (* Sell *)
    destruct Hph as [H1 H2 | l b H1 H2 H3 H4 H5 | l bs H1 H2 H3 H4 H5 H6].
    + exfalso. rewrite H1 in Hp. revert Hp. apply Qlt_irrefl.
    + apply Flat; simpl; [reflexivity|].
      rewrite H2, <- app_assoc. simpl. apply closed_app; [exact H3|].
      constructor; auto. constructor.
    + contradiction.
Qed.

Lemma phase_loop self ps df n st :
  loop self ps df n = Some st -> phase ps st.
Proof.
  revert n st. apply loop_ind.
  - apply phase_init.
  - intros n st st' _ IH He. apply phase_mark.
    eapply phase_execute; eassumption.
Qed.

(** ** At most one open position *)

Lemma buy_then_sell_closed l tl :
  closed l -> buy_then_sell tl -> buy_then_sell (l ++ tl).
Proof.
  induction 1 as [|b0 s0 l Hb Hs Hc IH]; intros Htl; [exact Htl|].
  intros l1 b t l2 E Hbuy Hq.
  destruct l1 as [|x [|y l1]]; simpl in E.
  - injection E as <- <- _. exact Hs.
  - injection E as _ <- _. congruence.
  - injection E as _ _ E. eapply (IH Htl); eauto.
Qed.

Lemma buy_then_sell_short l : (length l <= 1)%nat -> buy_then_sell l.
Proof.
  intros Hl l1 b t l2 ->. rewrite length_app in Hl. simpl in Hl. lia.
Qed.

Lemma buy_then_sell_phase ps st : phase ps st -> buy_then_sell (trades st).
Proof.
  intros [H1 H2 | l b H1 H2 H3 H4 H5 | l bs H1 H2 H3 H4 H5 H6].
  - rewrite <- (app_nil_r (trades st)).
    apply buy_then_sell_closed; [exact H2|].
    apply buy_then_sell_short. simpl; lia.
  - rewrite H2. apply buy_then_sell_closed; [exact H3|].
    apply buy_then_sell_short. simpl; lia.
  - rewrite H3. apply buy_then_sell_closed; [exact H4|].
    intros l1 b t l2 -> _ Hq.
    apply Forall_app in H6 as [_ H6]. inversion H6 as [|? ? [_ Hn] _]; subst.
    contradiction.
Qed.

(** C5.  At most one position is open at a time.  In every state that a
    run reaches, a lagged Buy while a position is open, a lagged Sell while
    flat and a Hold execute nothing at the next bar: the iteration appends
    no trade and leaves balance and position as they are (it only appends
    the equity point).  Consequently, in the trade list, the Buy that
    opened a position is directly followed by the Sell that closes it: no
    Buy is recorded in between. *)
Theorem single_open_position self ps df n st :
  loop self ps df n = Some st ->
  (forall ts price sig,
      mismatched sig st ->
      exists st',
        step self ps ts price sig st = Some st' /\
        balance st' = balance st /\ position st' = position st /\
        trades st' = trades st) /\
  buy_then_sell (trades st).
Proof.
  intros Hst. split.
  - intros ts price sig Hm. exists (mark price st).
    unfold step. rewrite (execute_mismatched _ _ _ _ _ _ Hm). simpl. auto.
  - eapply buy_then_sell_phase, phase_loop, Hst.
Qed.

(** ** Signal lag and absence of look-ahead *)

Lemma loop_ext self ps df1 df2 n :
  (forall j, (1 <= j <= n)%nat ->
     timestamp (iloc df1 j) = timestamp (iloc df2 j) /\
     close (iloc df1 j) = close (iloc df2 j) /\
     signal (iloc df1 (j - 1)) = signal (iloc df2 (j - 1))) ->
  loop self ps df1 n = loop self ps df2 n.
Proof.
  induction n as [|n IH]; intros H; [reflexivity|].
  rewrite !loop_S, IH by (intros j Hj; apply H; lia).
  destruct (loop self ps df2 n); [|reflexivity]. simpl.
  destruct (H (S n)) as (-> & -> & E); [lia|].
  simpl in E. rewrite Nat.sub_0_r in E. rewrite Nat.sub_0_r, E. reflexivity.
Qed.

(** The trade list after [n] bars is made of the trades of the bars
    [1 .. n], in this order. *)
Lemma loop_trades self ps df n st :
  loop self ps df n = Some st ->
  trades st = flat_map (fun i => trade_list (trade_at self ps df i)) (seq 1 n).
Proof.
  revert st. induction n as [|n IH]; intros st' Hst.
  - rewrite loop_0 in Hst. injection Hst as <-. reflexivity.
  - rewrite seq_S, flat_map_app. simpl. rewrite app_nil_r.
    unfold trade_at at 2. simpl. rewrite Nat.sub_0_r.
    rewrite loop_S in Hst.
    destruct (loop self ps df n) as [st|]; [|discriminate].
    rewrite <- (IH st eq_refl). simpl in Hst. rewrite Nat.sub_0_r in Hst.
    unfold step in Hst.
    destruct (execute _ _ _ _ _ st) as [st1|] eqn:He; [|discriminate].
    injection Hst as <-. simpl.
    apply execute_cases in He.
    destruct He as [(_ & _ & _ & ->) | [(_ & _ & ->) | (-> & _ & _)]]; simpl.
    + rewrite nth_error_app2, Nat.sub_diag by lia. reflexivity.
    + rewrite nth_error_app2, Nat.sub_diag by lia. reflexivity.
    + assert (nth_error (trades st) (length (trades st)) = None) as ->
        by (apply nth_error_None; lia).
      simpl. rewrite app_nil_r. reflexivity.
Qed.

Lemma run_backtest_last_signal self ps d r s :
  run_backtest self (d ++ [mkRow (timestamp r) (close r) s]) ps
  = run_backtest self (d ++ [r]) ps.
Proof.
  unfold run_backtest, simulate. rewrite !length_app. simpl.
  replace (length d + 1 - 1)%nat with (length d) by lia.
  rewrite (loop_ext self ps (d ++ [mkRow (timestamp r) (close r) s])
             (d ++ [r]) (length d)).
  - destruct (loop self ps (d ++ [r]) (length d)) as [st|]; [|reflexivity].
    unfold close_open_position. rewrite !last_last. simpl.
    unfold metrics. rewrite !length_app, !map_app. reflexivity.
  - intros j Hj. unfold iloc.
    rewrite (app_nth1 d _ default_row (n := j - 1)) by lia.
    rewrite (app_nth1 d [r] default_row (n := j - 1)) by lia.
    destruct (Nat.eq_dec j (length d)) as [->|Hne].
    + rewrite !app_nth2, Nat.sub_diag by lia. simpl. auto.
    + rewrite !app_nth1 by lia. auto.
Qed.

(** C4.  Signal lag, no look-ahead.  For a bar [i >= 1], if two frames
    agree on timestamps and prices up to bar [i] and on signals up to bar
    [i - 1], the two runs are in the same state after bar [i] and execute
    the same trade (or none) at bar [i], whatever the later rows are; and
    replacing the signal of the final row changes nothing of the result:
    it is never executed. *)
Theorem no_look_ahead self ps df1 df2 i :
  (1 <= i)%nat ->
  (forall j, (j <= i)%nat ->
     timestamp (iloc df1 j) = timestamp (iloc df2 j) /\
     close (iloc df1 j) = close (iloc df2 j)) ->
  (forall j, (j < i)%nat -> signal (iloc df1 j) = signal (iloc df2 j)) ->
  trade_at self ps df1 i = trade_at self ps df2 i /\
  loop self ps df1 i = loop self ps df2 i /\
  (forall t, trade_at self ps df1 i = Some t ->
     tr_timestamp t = timestamp (iloc df1 i) /\
     tr_price t = close (iloc df1 i) /\
     signal (iloc df1 (i - 1)) = match tr_type t with
                                 | BUY => 1%Z
                                 | SELL => (-1)%Z
                                 end) /\
  forall s, run_backtest self (set_last_signal df1 s) ps
            = run_backtest self df1 ps.
Proof.
  intros Hi Hbar Hsig. split; [|split; [|split]].
  - unfold trade_at.
    rewrite (loop_ext self ps df1 df2 (i - 1)).
    + destruct (Hbar i) as [-> ->]; [lia|]. rewrite (Hsig (i - 1)%nat) by lia.
      reflexivity.
    + intros j Hj. destruct (Hbar j) as [-> ->]; [lia|].
      rewrite (Hsig (j - 1)%nat) by lia. auto.
  - apply loop_ext. intros j Hj. destruct (Hbar j) as [-> ->]; [lia|].
    rewrite (Hsig (j - 1)%nat) by lia. auto.
  - intros t. unfold trade_at.
    destruct (loop self ps df1 (i - 1)) as [st|]; [|discriminate].
    destruct (execute _ _ _ _ _ st) as [st1|] eqn:He; [|discriminate].
    apply execute_cases in He.
    destruct He as [(E & _ & _ & ->) | [(E & _ & ->) | (-> & _ & _)]]; simpl.
    + rewrite nth_error_app2, Nat.sub_diag by lia. intros [= <-]. auto.
    + rewrite nth_error_app2, Nat.sub_diag by lia. intros [= <-]. auto.
    + intros H. assert (Hn : nth_error (trades st) (length (trades st)) <> None)
        by congruence.
      apply nth_error_Some in Hn. lia.
  - intros s. destruct df1 as [|r0 df]; [reflexivity|].
    unfold set_last_signal.
    rewrite run_backtest_last_signal.
    rewrite <- app_removelast_last by discriminate. reflexivity.
Qed.

(** ** The result record *)

Lemma combine_fst (A B : Type) (a : list A) (b : list B) :
  length a = length b -> map fst (combine a b) = a.
Proof.
  revert b. induction a as [|x a IH]; intros [|y b]; simpl; try discriminate;
    [reflexivity|].
  intros [= E]. rewrite IH by exact E. reflexivity.
Qed.

Lemma combine_snd (A B : Type) (a : list A) (b : list B) :
  length a = length b -> map snd (combine a b) = b.
Proof.
  revert b. induction a as [|x a IH]; intros [|y b]; simpl; try discriminate;
    [reflexivity|].
  intros [= E]. rewrite IH by exact E. reflexivity.
Qed.

(** What a returned result is made of. *)
Lemma metrics_returned self df b eq tr r :
  metrics self df b eq tr = Returned r ->
  length eq = length df /\
  ~ initial_balance self == 0 /\
  total_return r = (b / initial_balance self - 1) * 100 /\
  final_balance r = b /\
  total_trades r = length tr /\
  res_trades r = tr /\
  map snd (res_equity_curve r) = eq /\
  map fst (res_equity_curve r) = map timestamp df /\
  win_rate_of tr = Some (win_rate r) /\
  exists returns,
    Series.pct_change eq = Some returns /\
    sharpe_ratio r = sharpe_ratio_of returns /\
    max_drawdown_of returns = Some (max_drawdown r).
Proof.
  unfold metrics.
  destruct (Nat.eqb_spec (length eq) (length df)) as [El|El]; simpl;
    [|discriminate].
  destruct (Series.pct_change eq) as [returns|]; [|discriminate].
  destruct (Qeq_bool (initial_balance self) 0) eqn:Ei; [discriminate|].
  apply Qeq_bool_false in Ei.
  destruct (max_drawdown_of returns) as [md|] eqn:Emd; [|discriminate].
  destruct (win_rate_of tr) as [wr|] eqn:Ewr; [|discriminate].
  intros [= <-]. simpl.
  rewrite combine_snd, combine_fst by (rewrite length_map; auto).
  repeat split; auto. exists returns. auto.
Qed.

Lemma run_backtest_returned self ps df r :
  run_backtest self df ps = Returned r ->
  exists st,
    simulate self ps df = Some st /\
    metrics self df (fst (close_open_position self df st))
            (snd (close_open_position self df st)) (trades st)
    = Returned r.
Proof.
  unfold run_backtest.
  destruct (simulate self ps df) as [st|]; [|discriminate].
  destruct (close_open_position self df st) as [b eq] eqn:E.
  intros H. exists st. rewrite E. split; [reflexivity | exact H].
Qed.

(** ** Forced liquidation *)

Lemma last_set_last l x d : last (set_last l x) d = x.
Proof. unfold set_last. apply last_last. Qed.

Lemma close_open_position_holding self df st :
  0 < position st ->
  close_open_position self df st =
  (balance st +
   (position st * close (last df default_row) -
    position st * close (last df default_row) * commission self),
   set_last (equity_curve st)
     (balance st +
      (position st * close (last df default_row) -
       position st * close (last df default_row) * commission self))).
Proof.
  intros Hp. unfold close_open_position.
  apply Qltb_lt in Hp. rewrite Hp. reflexivity.
Qed.

(** C6.  Forced liquidation.  When the position is positive after the last
    bar, the balance is credited with the position's value at the last
    close minus the commission on that value, exactly as in the Sell
    branch, the last equity point is overwritten with that balance, and in
    the result the final equity point equals [final_balance]. *)
Theorem forced_liquidation self ps df st r :
  simulate self ps df = Some st ->
  0 < position st ->
  run_backtest self df ps = Returned r ->
  let p := close (last df default_row) in
  final_balance r
  = balance st + (position st * p - position st * p * commission self) /\
  map snd (res_equity_curve r)
  = set_last (equity_curve st) (final_balance r) /\
  last (map snd (res_equity_curve r)) 0 = final_balance r.
Proof.
  intros Hst Hp Hr p.
  apply run_backtest_returned in Hr as (st0 & Hst0 & Hm).
  rewrite Hst in Hst0. injection Hst0 as <-.
  rewrite (close_open_position_holding self df st Hp) in Hm. simpl in Hm.
  apply metrics_returned in Hm as (_ & _ & _ & Hb & _ & _ & He & _).
  subst p. rewrite Hb, He.
  split; [reflexivity|]. split; [reflexivity|]. apply last_set_last.
Qed.

(** C10.  The forced liquidation is not logged.  When the position is
    positive after the last bar, the returned trade list is the list built
    by the loop, bar by bar, with nothing appended for the liquidation;
    [total_trades] is its length; its last entry is the Buy that opened the
    position; and yet the final balance is the liquidated balance and the
    final equity point is that balance. *)
Theorem liquidation_not_logged self ps df st r :
  simulate self ps df = Some st ->
  0 < position st ->
  run_backtest self df ps = Returned r ->
  res_trades r
  = flat_map (fun i => trade_list (trade_at self ps df i))
             (seq 1 (length df - 1)) /\
  total_trades r = length (res_trades r) /\
  (exists l b, res_trades r = l ++ [b] /\ tr_type b = BUY /\
               tr_quantity b = position st) /\
  final_balance r = fst (close_open_position self df st) /\
  final_balance r
  = balance st + (position st * close (last df default_row) -
                  position st * close (last df default_row) * commission self)
  /\
  last (map snd (res_equity_curve r)) 0 = final_balance r.
Proof.
  intros Hst Hp Hr.
  apply run_backtest_returned in Hr as (st0 & Hst0 & Hm).
  rewrite Hst in Hst0. injection Hst0 as <-.
  apply metrics_returned in Hm as (_ & _ & _ & Hfb & Hn & Htr & He & _).
  rewrite Htr, Hfb, He.
  rewrite (close_open_position_holding self df st Hp). simpl.
  repeat split; auto using last_set_last.
  - apply (loop_trades self ps df _ st Hst).
  - destruct (phase_loop self ps df _ st Hst)
      as [H1 H2 | l b H1 H2 H3 H4 H5 | l bs H1 H2 H3 H4 H5 H6].
    + exfalso. rewrite H1 in Hp. revert Hp. apply Qlt_irrefl.
    + exists l, b. auto.
    + contradiction.
Qed.

(** ** Length of the equity curve, and the only error *)

Lemma loop_equity_length self ps df n st :
  loop self ps df n = Some st -> length (equity_curve st) = S n.
Proof.
  revert n st. apply loop_ind; [reflexivity|].
  intros n st st' _ IH He. simpl. rewrite length_app. simpl.
  apply execute_cases in He.
  destruct He as [(_ & _ & _ & ->) | [(_ & _ & ->) | (-> & _ & _)]]; simpl;
    lia.
Qed.

Lemma set_last_length l x : l <> [] -> length (set_last l x) = length l.
Proof.
  intros Hl. unfold set_last. rewrite length_app. simpl.
  destruct l as [|y l] using rev_ind; [contradiction|].
  rewrite removelast_last, length_app. reflexivity.
Qed.

Lemma close_open_position_length self df st :
  equity_curve st <> [] ->
  length (snd (close_open_position self df st)) = length (equity_curve st).
Proof.
  intros Hl. unfold close_open_position.
  destruct (Qltb 0 (position st)); simpl; [|reflexivity].
  apply set_last_length, Hl.
Qed.

Lemma simulate_equity_length self ps df st :
  simulate self ps df = Some st ->
  length (snd (close_open_position self df st)) = S (length df - 1).
Proof.
  intros Hst. apply loop_equity_length in Hst.
  rewrite close_open_position_length; [exact Hst|].
  destruct (equity_curve st); [discriminate Hst | discriminate].
Qed.

(** [run_backtest] raises on the empty frame only, and then it is the
    length check of [pd.Series]. *)
Lemma run_backtest_raised self ps df e :
  run_backtest self df ps = Raised e -> e = ValueError /\ df = [].
Proof.
  unfold run_backtest.
  destruct (simulate self ps df) as [st|] eqn:Hst; [|discriminate].
  pose proof (simulate_equity_length _ _ _ _ Hst) as Hl.
  destruct (close_open_position self df st) as [b eq]. simpl in Hl.
  unfold metrics.
  destruct (Nat.eqb_spec (length eq) (length df)) as [El|El]; simpl.
  - destruct (Series.pct_change eq); [|discriminate].
    destruct (Qeq_bool (initial_balance self) 0); [discriminate|].
    destruct (max_drawdown_of l); [|discriminate].
    destruct (win_rate_of (trades st)); discriminate.
  - intros [= <-]. split; [reflexivity|].
    destruct df; [reflexivity|]. simpl in *. lia.
Qed.


(** The loop stops only at a Buy on a zero price. *)
Lemma execute_total self ps ts price sig st :
  ~ price == 0 -> exists st', execute self ps ts price sig st = Some st'.
Proof.
  intros Hp. unfold execute. apply Qeq_bool_false in Hp. rewrite Hp.
  destruct (_ && _)%bool; [eauto|]. destruct (_ && _)%bool; eauto.
Qed.

Lemma loop_total self ps df n :
  (forall j, (1 <= j <= n)%nat -> ~ close (iloc df j) == 0) ->
  exists st, loop self ps df n = Some st.
Proof.
  induction n as [|n IH]; intros H.
  - exists (init_state self). reflexivity.
  - destruct IH as [st Hst]; [intros j Hj; apply H; lia|].
    rewrite loop_S, Hst. simpl. unfold step.
    destruct (execute_total self ps (timestamp (iloc df (S n)))
                (close (iloc df (S n))) (signal (iloc df (n - 0))) st)
      as [st' ->]; [apply H; lia|].
    simpl. eauto.
Qed.

Lemma loop_stopped self ps df n m :
  (n <= m)%nat -> loop self ps df n = None -> loop self ps df m = None.
Proof.
  induction 1 as [|m _ IH]; intros Hn; [exact Hn|].
  rewrite loop_S, (IH Hn). reflexivity.
Qed.

(** ** The cash balance *)






(** ** Prices that are not positive *)





(** ** Runs without trades *)

Lemma no_trades_state self ps df n st :
  loop self ps df n = Some st ->
  trades st = [] ->
  balance st = initial_balance self /\ position st = 0 /\
  Forall (fun e => e == initial_balance self) (equity_curve st).
Proof.
  revert n st.
  apply (loop_ind self ps df
           (fun _ st =>
              trades st = [] ->
              balance st = initial_balance self /\ position st = 0 /\
              Forall (fun e => e == initial_balance self) (equity_curve st))).
  - intros _. simpl. repeat split. constructor; [reflexivity|constructor].
  - intros n st st' _ IH He. simpl. intros Ht.
    apply execute_cases in He.
    destruct He as [(_ & _ & _ & ->) | [(_ & _ & ->) | (-> & _ & _)]];
      simpl in Ht; try (destruct (trades st); discriminate).
    destruct (IH Ht) as (Hb & Hp & He). repeat split; auto.
    apply Forall_app. split; [exact He|]. constructor; [|constructor].
    rewrite Hb, Hp. simpl. ring.
Qed.

Lemma hold_only_loop self ps df n :
  (forall j, signal (iloc df j) <> 1%Z /\ signal (iloc df j) <> (-1)%Z) ->
  exists st, loop self ps df n = Some st /\ trades st = [].
Proof.
  intros Hh. induction n as [|n (st & Hst & Ht)].
  - exists (init_state self). split; reflexivity.
  - rewrite loop_S, Hst. simpl. unfold step.
    rewrite execute_mismatched by (right; right; apply Hh).
    simpl. eexists. split; [reflexivity|]. exact Ht.
Qed.

(** ** Series lemmas *)

Lemma pct_change_from_const b prev l :
  ~ b == 0 -> prev == b -> Forall (fun e => e == b) l ->
  exists rs, Series.pct_change_from prev l = Some rs /\
             Forall (fun r => r == 0) rs.
Proof.
  intros Hb. revert prev. induction l as [|x l IH]; intros prev Hp Hl.
  - exists []. split; [reflexivity|constructor].
  - inversion Hl as [|? ? Hx Hl']; subst. simpl.
    assert (Hpz : ~ prev == 0) by (rewrite Hp; exact Hb).
    apply Qeq_bool_false in Hpz. rewrite Hpz.
    destruct (IH x Hx Hl') as (rs & -> & Hrs). simpl.
    eexists. split; [reflexivity|]. constructor; [|exact Hrs].
    rewrite Hx, Hp. field. exact Hb.
Qed.

Lemma pct_change_const b l :
  ~ b == 0 -> Forall (fun e => e == b) l ->
  exists rs, Series.pct_change l = Some rs /\ Forall (fun r => r == 0) rs.
Proof.
  intros Hb Hl. destruct l as [|x l]; simpl.
  - exists []. split; [reflexivity|constructor].
  - inversion Hl; subst. eapply pct_change_from_const; eauto.
Qed.

Lemma sum_zero l : Forall (fun x => x == 0) l -> Series.sum l == 0.
Proof.
  induction 1 as [|x l Hx _ IH]; simpl; [reflexivity|].
  rewrite Hx, IH. ring.
Qed.

Lemma var_zero l v :
  Forall (fun x => x == 0) l -> Series.var l = Some v -> v == 0.
Proof.
  intros Hl. unfold Series.var.
  destruct (length l <? 2)%nat; [discriminate|]. intros [= <-].
  assert (Hm : Series.mean l == 0).
  { unfold Series.mean. rewrite (sum_zero l Hl). unfold Qdiv. ring. }
  rewrite sum_zero; [unfold Qdiv; ring|].
  apply Forall_map. eapply Forall_impl; [|exact Hl].
  intros x Hx. simpl in Hx. rewrite Hx, Hm. ring.
Qed.

Lemma cumprod_from_pos acc l :
  0 < acc -> Forall (fun x => 0 < x) l ->
  Forall (fun x => 0 < x) (Series.cumprod_from acc l).
Proof.
  intros Ha Hl. revert acc Ha.
  induction Hl as [|x l Hx _ IH]; intros acc Ha; simpl; constructor.
  - apply Qmult_lt_0_compat; assumption.
  - apply IH, Qmult_lt_0_compat; assumption.
Qed.

Lemma fmax_pos m x : 0 < m -> 0 < Series.fmax m x.
Proof.
  intros Hm. unfold Series.fmax. destruct (Qltb m x) eqn:E; [|exact Hm].
  apply Qltb_lt in E. eapply Qlt_trans; eassumption.
Qed.

Lemma expanding_max_from_pos m l :
  0 < m -> Forall (fun x => 0 < x) (Series.expanding_max_from m l).
Proof.
  revert m. induction l as [|x l IH]; intros m Hm; simpl; constructor.
  - apply fmax_pos, Hm.
  - apply IH, fmax_pos, Hm.
Qed.

Lemma rel_diff_defined a b :
  Forall (fun x => 0 < x) b -> exists d, Series.rel_diff a b = Some d.
Proof.
  intros Hb. revert a. induction Hb as [|y b Hy _ IH]; intros [|x a]; simpl;
    eauto.
  assert (Hn : ~ y == 0) by lra. apply Qeq_bool_false in Hn. rewrite Hn.
  destruct (IH a) as [d ->]. simpl. eauto.
Qed.

(** The drawdown is computed without a zero divisor as long as every
    return is above -1. *)
Lemma max_drawdown_defined returns :
  Forall (fun r => 0 < 1 + r) returns ->
  exists md, max_drawdown_of returns = Some md.
Proof.
  intros Hr. unfold max_drawdown_of.
  assert (Hc : Forall (fun x => 0 < x) (Series.cumprod (one_plus returns))).
  { destruct Hr as [|r l Hx Hl]; simpl; constructor; [exact Hx|].
    apply cumprod_from_pos; [exact Hx|].
    apply Forall_map. exact Hl. }
  assert (Hm : Forall (fun x => 0 < x)
                 (Series.expanding_max
                    (Series.cumprod (one_plus returns)))).
  { destruct Hc as [|x l Hx Hl]; simpl; constructor; [exact Hx|].
    apply expanding_max_from_pos, Hx. }
  destruct (rel_diff_defined (Series.cumprod (one_plus returns)) _ Hm)
    as [d ->].
  eauto.
Qed.

Lemma Q2R_zero v : v == 0 -> Q2R v = 0%R.
Proof.
  intros H. rewrite (Qeq_eqR _ _ H). unfold Q2R. simpl. lra.
Qed.

Lemma sharpe_zero_returns returns :
  Forall (fun r => r == 0) returns -> sharpe_ratio_of returns = 0%R.
Proof.
  intros Hr. unfold sharpe_ratio_of, Series.std.
  destruct (0 <? length returns)%nat; [|reflexivity].
  destruct (Series.var returns) as [v|] eqn:Ev; simpl; [|reflexivity].
  rewrite (Q2R_zero v (var_zero _ _ Hr Ev)), sqrt_0.
  destruct (Rlt_dec 0 0); [lra | reflexivity].
Qed.

Lemma close_open_position_flat self df st :
  position st = 0 ->
  close_open_position self df st = (balance st, equity_curve st).
Proof.
  intros Hp. unfold close_open_position. rewrite Hp. reflexivity.
Qed.

(** A run that executes no trade returns a result, with the initial
    balance as final balance and a Sharpe ratio of zero. *)
Lemma no_trades_run self ps df st :
  df <> [] -> ~ initial_balance self == 0 ->
  simulate self ps df = Some st -> trades st = [] ->
  exists r,
    run_backtest self df ps = Returned r /\
    final_balance r = initial_balance self /\
    total_trades r = 0%nat /\ win_rate r = 0 /\
    sharpe_ratio r = 0%R.
Proof.
  intros Hdf Hb Hst Ht.
  destruct (no_trades_state self ps df _ st Hst Ht) as (Hbal & Hp & He).
  pose proof (simulate_equity_length self ps df st Hst) as Hl.
  unfold run_backtest. rewrite Hst.
  rewrite (close_open_position_flat self df st Hp) in *. simpl in Hl.
  unfold metrics.
  assert ((length (equity_curve st) =? length df)%nat = true) as ->.
  { apply Nat.eqb_eq. destruct df; [contradiction|]. simpl in *. lia. }
  simpl.
  destruct (pct_change_const _ _ Hb He) as (rs & -> & Hrs).
  apply Qeq_bool_false in Hb. rewrite Hb.
  destruct (max_drawdown_defined rs) as [md ->].
  { eapply Forall_impl; [|exact Hrs]. intros x Hx. simpl in Hx. lra. }
  rewrite Ht. simpl. eexists. split; [reflexivity|]. simpl.
  repeat split; auto. apply sharpe_zero_returns, Hrs.
Qed.

(** ** The Sharpe ratio *)


(** ** Input validation *)

(** C2 (amended).  [run_backtest] checks none of the preconditions and
    never fails with [InvalidInput].  Divisions by zero apart, the only
    error is the [ValueError] of pandas on an empty frame, raised after
    the loop.  Whatever the commission rate, the
    position-size fraction and the initial balance are, the loop runs over
    every bar as long as no close price is zero; and with Hold signals
    only, on a frame of one row or more and with a non-zero initial
    balance, a result is returned: no trade, final balance equal to the
    initial balance. *)
Theorem no_input_validation self ps df :
  run_backtest self df ps <> Raised InvalidInput /\
  (forall e, run_backtest self df ps = Raised e <-> e = ValueError /\ df = [])
  /\
  ((forall j, (1 <= j < length df)%nat -> ~ close (iloc df j) == 0) ->
   exists st, simulate self ps df = Some st) /\
  (df <> [] -> ~ initial_balance self == 0 ->
   (forall j, signal (iloc df j) <> 1%Z /\ signal (iloc df j) <> (-1)%Z) ->
   exists r,
     run_backtest self df ps = Returned r /\
     final_balance r = initial_balance self /\ total_trades r = 0%nat).
Proof.
  split; [|split; [|split]].
  - intros H. apply run_backtest_raised in H as [H _]. discriminate.
  - intros e. split; [apply run_backtest_raised|].
    intros [-> ->]. reflexivity.
  - intros H. apply loop_total. intros j Hj. apply H. lia.
  - intros Hdf Hb Hh.
    destruct (hold_only_loop self ps df (length df - 1) Hh) as (st & Hst & Ht).
    destruct (no_trades_run self ps df st Hdf Hb Hst Ht)
      as (r & Hr & Hf & Hn & _).
    exists r. auto.
Qed.

(** C2 (counterexample).  Four runs that violate one precondition each (a
    commission rate of 2, a position-size fraction of 5, an initial
    balance of -100, a frame of one row) and return a result. *)
Lemma invalid_input_accepted :
  (~ precondition (mkBacktester 10000 2) buy_df 1 /\
   exists r, run_backtest (mkBacktester 10000 2) buy_df 1 = Returned r) /\
  (~ precondition (mkBacktester 10000 0) buy_df 5 /\
   exists r, run_backtest (mkBacktester 10000 0) buy_df 5 = Returned r) /\
  (~ precondition (mkBacktester (-100) 0) buy_df (1 # 2) /\
   exists r, run_backtest (mkBacktester (-100) 0) buy_df (1 # 2)
             = Returned r) /\
  (~ precondition default_backtester [mkRow 1 100 1] 1 /\
   exists r, run_backtest default_backtester [mkRow 1 100 1] 1 = Returned r).
Proof.
  unfold precondition. simpl.
  repeat split; try (eexists; reflexivity);
    intros (Hl & Hc & Hp & Hb); try lra; lia.
Qed.

(** ** The trade list is ordered by time *)



Lemma StronglySorted_app_inv (A : Type) (R : A -> A -> Prop) l1 l2 :
  StronglySorted R (l1 ++ l2) ->
  StronglySorted R l2 /\
  forall x y, In x l1 -> In y l2 -> R x y.
Proof.
  induction l1 as [|a l1 IH]; simpl; intros H.
  - split; [exact H | contradiction].
  - apply StronglySorted_inv in H as [Hs Ha].
    destruct (IH Hs) as [H2 H12]. split; [exact H2|].
    intros x y [<-|Hx] Hy; [|auto].
    rewrite Forall_forall in Ha. apply Ha, in_or_app. auto.
Qed.



(** ** Pairing of Buys and Sells *)















(** ** The win rate *)


(** ** The maximum drawdown *)

Lemma cumprod_from_nth acc l k :
  (k < length l)%nat ->
  nth k (Series.cumprod_from acc l) 0
  == acc * fold_right Qmult 1 (firstn (S k) l).
Proof.
  revert acc k. induction l as [|x l IH]; intros acc k Hk; simpl in Hk;
    [lia|].
  destruct k as [|k].
  - simpl. ring.
  - cbn [Series.cumprod_from nth]. rewrite IH by lia.
    rewrite (firstn_cons (S k) x l). cbn [fold_right]. ring.
Qed.

Lemma cumprod_nth l k :
  (k < length l)%nat ->
  nth k (Series.cumprod l) 0 == fold_right Qmult 1 (firstn (S k) l).
Proof.
  destruct l as [|x l]; simpl; [lia|]. intros Hk.
  destruct k as [|k]; [simpl; ring|].
  rewrite cumprod_from_nth by lia. reflexivity.
Qed.

Lemma cumprod_from_length acc l :
  length (Series.cumprod_from acc l) = length l.
Proof.
  revert acc. induction l; intros acc; simpl; [reflexivity|]. f_equal. auto.
Qed.

Lemma cumprod_length l : length (Series.cumprod l) = length l.
Proof.
  destruct l; simpl; [reflexivity|]. f_equal. apply cumprod_from_length.
Qed.

Lemma fmax_cases m x :
  m <= Series.fmax m x /\ x <= Series.fmax m x /\
  (Series.fmax m x = m \/ Series.fmax m x = x).
Proof.
  unfold Series.fmax. destruct (Qltb m x) eqn:E.
  - apply Qltb_lt in E. repeat split; [lra | lra | auto].
  - apply Qltb_ge in E. repeat split; [lra | lra | auto].
Qed.

Lemma fmin_cases m x :
  Series.fmin m x <= m /\ Series.fmin m x <= x /\
  (Series.fmin m x = m \/ Series.fmin m x = x).
Proof.
  unfold Series.fmin. destruct (Qltb x m) eqn:E.
  - apply Qltb_lt in E. repeat split; [lra | lra | auto].
  - apply Qltb_ge in E. repeat split; [lra | lra | auto].
Qed.

Lemma expanding_max_from_length m l :
  length (Series.expanding_max_from m l) = length l.
Proof.
  revert m. induction l; intros m; simpl; [reflexivity|]. f_equal. auto.
Qed.

Lemma expanding_max_length l : length (Series.expanding_max l) = length l.
Proof.
  destruct l; simpl; [reflexivity|]. f_equal. apply expanding_max_from_length.
Qed.

Lemma expanding_max_from_nth m l k :
  (k < length l)%nat ->
  m <= nth k (Series.expanding_max_from m l) 0 /\
  (forall j, (j <= k)%nat -> nth j l 0 <= nth k (Series.expanding_max_from m l) 0)
  /\
  (nth k (Series.expanding_max_from m l) 0 = m \/
   exists j, (j <= k)%nat /\
             nth k (Series.expanding_max_from m l) 0 = nth j l 0).
Proof.
  revert m k. induction l as [|x l IH]; intros m k Hk; simpl in Hk; [lia|].
  destruct (fmax_cases m x) as (H1 & H2 & H3).
  destruct k as [|k]; cbn [Series.expanding_max_from nth].
  - split; [exact H1|]. split.
    + intros j Hj. replace j with 0%nat by lia. exact H2.
    + destruct H3 as [->| ->]; [left; reflexivity|].
      right. exists 0%nat. split; [lia | reflexivity].
  - destruct (IH (Series.fmax m x) k) as (I1 & I2 & I3); [lia|].
    split; [lra|]. split.
    + intros [|j] Hj; [lra|]. apply I2. lia.
    + destruct I3 as [E|(j & Hj & E)].
      * rewrite E. destruct H3 as [->| ->]; [left; reflexivity|].
        right. exists 0%nat. split; [lia | reflexivity].
      * right. exists (S j). split; [lia | exact E].
Qed.

(** Entry [k] of the running maximum is the largest of the entries
    [0 .. k]. *)
Lemma expanding_max_nth l k :
  (k < length l)%nat ->
  (forall j, (j <= k)%nat -> nth j l 0 <= nth k (Series.expanding_max l) 0) /\
  exists j, (j <= k)%nat /\ nth k (Series.expanding_max l) 0 = nth j l 0.
Proof.
  destruct l as [|x l]; simpl length; [lia|]. intros Hk.
  destruct k as [|k]; cbn [Series.expanding_max nth].
  - split.
    + intros j Hj. replace j with 0%nat by lia. apply Qle_refl.
    + exists 0%nat. split; [lia | reflexivity].
  - destruct (expanding_max_from_nth x l k) as (I1 & I2 & I3); [lia|].
    split.
    + intros [|j] Hj; [exact I1|]. apply I2. lia.
    + destruct I3 as [E|(j & Hj & E)].
      * exists 0%nat. split; [lia | exact E].
      * exists (S j). split; [lia | exact E].
Qed.

Lemma rel_diff_nth a b d :
  Series.rel_diff a b = Some d -> length a = length b ->
  length d = length a /\
  forall k, (k < length a)%nat ->
    ~ nth k b 0 == 0 /\
    nth k d 0 = (nth k a 0 - nth k b 0) / nth k b 0.
Proof.
  revert b d. induction a as [|x a IH]; intros [|y b] d; simpl;
    try discriminate.
  - intros [= <-] _. split; [reflexivity | intros; lia].
  - destruct (Qeq_bool y 0) eqn:Ey; [discriminate|].
    destruct (Series.rel_diff a b) as [d'|] eqn:Ed; [|discriminate].
    simpl. intros [= <-] [= El]. destruct (IH b d' Ed El) as [Hl Hn].
    split; [simpl; congruence|].
    intros [|k] Hk; simpl.
    + split; [apply Qeq_bool_false, Ey | reflexivity].
    + apply Hn. lia.
Qed.

Lemma fold_fmin_spec l x :
  fold_left Series.fmin l x <= x /\
  (forall y, In y l -> fold_left Series.fmin l x <= y) /\
  In (fold_left Series.fmin l x) (x :: l).
Proof.
  revert x. induction l as [|y l IH]; intros x; simpl.
  - split; [apply Qle_refl|]. split; [contradiction | auto].
  - destruct (IH (Series.fmin x y)) as (I1 & I2 & I3).
    destruct (fmin_cases x y) as (H1 & H2 & H3).
    split; [lra|]. split.
    + intros z [<-|Hz]; [lra | auto].
    + destruct I3 as [E|I3]; [|auto].
      rewrite <- E. destruct H3 as [->| ->]; auto.
Qed.

(** X1.  The formula of the maximum drawdown.  On a non-empty return series
    (and with no zero running maximum) the maximum drawdown is
    [abs(min(drawdown)) * 100], where entry [k] of [drawdown] is
    [(cumulative_k - running_max_k) / running_max_k], [cumulative_k] is the
    product of the [(1 + r_j)] for [j <= k], and [running_max_k] is the
    largest of [cumulative_0 .. cumulative_k]. *)
Lemma max_drawdown_formula returns md :
  returns <> [] ->
  max_drawdown_of returns = Some md ->
  exists cumulative running_max drawdown m,
    length cumulative = length returns /\
    length running_max = length returns /\
    length drawdown = length returns /\
    (forall k, (k < length returns)%nat ->
       nth k cumulative 0 == growth returns k /\
       (forall j, (j <= k)%nat -> nth j cumulative 0 <= nth k running_max 0) /\
       (exists j, (j <= k)%nat /\ nth k running_max 0 = nth j cumulative 0) /\
       nth k drawdown 0
       = (nth k cumulative 0 - nth k running_max 0) / nth k running_max 0) /\
    In m drawdown /\ (forall y, In y drawdown -> m <= y) /\
    md = Fin (Qabs m * 100).
Proof.
  intros Hne. unfold max_drawdown_of.
  set (cumulative := Series.cumprod (one_plus returns)).
  set (running_max := Series.expanding_max cumulative).
  destruct (Series.rel_diff cumulative running_max) as [drawdown|] eqn:Ed;
    [|discriminate].
  assert (Hlc : length cumulative = length returns).
  { unfold cumulative, one_plus. rewrite cumprod_length, length_map.
    reflexivity. }
  assert (Hlr : length running_max = length returns).
  { unfold running_max. rewrite expanding_max_length. exact Hlc. }
  destruct (rel_diff_nth _ _ _ Ed) as [Hld Hd]; [congruence|].
  destruct drawdown as [|x drawdown].
  { destruct returns; [contradiction|]. simpl in *. lia. }
  simpl. intros [= <-].
  destruct (fold_fmin_spec drawdown x) as (M1 & M2 & M3).
  exists cumulative, running_max, (x :: drawdown),
    (fold_left Series.fmin drawdown x).
  repeat split; try congruence; auto.
  - unfold cumulative, growth. apply cumprod_nth.
    unfold one_plus. rewrite length_map. exact H.
  - apply expanding_max_nth. lia.
  - apply expanding_max_nth. lia.
  - apply Hd. lia.
  - intros y [<-|Hy]; auto.
Qed.

Lemma max_drawdown_formula_witness :
  exists md m,
    max_drawdown_of [1 # 10; - (1 # 10)] = Some md /\
    md = Fin (Qabs m * 100).
Proof.
  destruct (max_drawdown_formula [1 # 10; - (1 # 10)] _
              ltac:(discriminate) eq_refl)
    as (c & rm & d & m & _ & _ & _ & _ & _ & _ & H).
  eexists. exists m. split; [reflexivity | exact H].
Defined.

(** C7 at a frame of one row.  The loop does not run, the equity curve has
    one point, the return series is empty, and the maximum drawdown of the
    result is NaN (the minimum of an empty Series), not 0; the Sharpe
    ratio and the win rate of the same result are 0. *)
Lemma max_drawdown_single_bar :
  exists r,
    run_backtest default_backtester [mkRow 1 100 0] 1 = Returned r /\
    Series.pct_change (map snd (res_equity_curve r)) = Some [] /\
    max_drawdown r = NaN /\ max_drawdown r <> Fin 0 /\
    win_rate r = 0 /\ sharpe_ratio r = 0%R.
Proof.
  eexists. split; [reflexivity|]. simpl.
  repeat split. discriminate.
Qed.

(** ** Runs that return a result *)







(** ** The theorems on concrete runs *)



(** Hold signals only, with a commission rate of 2, a position size of 5
    and a negative initial balance. *)
Lemma no_input_validation_witness :
  exists r,
    run_backtest (mkBacktester (-100) 2) hold_df 5 = Returned r /\
    final_balance r = -100 /\ total_trades r = 0%nat.
Proof.
  apply (proj2 (proj2 (proj2
           (no_input_validation (mkBacktester (-100) 2) 5 hold_df)))).
  - discriminate.
  - vm_compute. discriminate.
  - intros j. unfold iloc.
    do 3 (destruct j as [|j]; [split; discriminate|]).
    destruct j; split; discriminate.
Defined.


(** The scenario frame and [scenario_df'] agree on the bars 0..2 and on
    the signals 0..1. *)
Lemma no_look_ahead_witness :
  trade_at (mkBacktester 10000 0) 1 scenario_df 2
  = trade_at (mkBacktester 10000 0) 1 scenario_df' 2 /\
  loop (mkBacktester 10000 0) 1 scenario_df 2
  = loop (mkBacktester 10000 0) 1 scenario_df' 2.
Proof.
  destruct (no_look_ahead (mkBacktester 10000 0) 1 scenario_df scenario_df' 2)
    as (H1 & H2 & _).
  - lia.
  - intros j Hj. unfold iloc.
    do 3 (destruct j as [|j]; [split; reflexivity|]). lia.
  - intros j Hj. unfold iloc.
    do 2 (destruct j as [|j]; [reflexivity|]). lia.
  - split; assumption.
Defined.

(** The scenario after its second bar: the position is open. *)
Lemma single_open_position_witness :
  exists st,
    loop (mkBacktester 10000 0) 1 scenario_df 2 = Some st /\
    0 < position st /\
    (forall ts price sig,
        mismatched sig st ->
        exists st',
          step (mkBacktester 10000 0) 1 ts price sig st = Some st' /\
          balance st' = balance st /\ position st' = position st /\
          trades st' = trades st) /\
    buy_then_sell (trades st).
Proof.
  eexists. split; [reflexivity|]. split; [reflexivity|].
  apply (single_open_position (mkBacktester 10000 0) 1 scenario_df 2).
  reflexivity.
Defined.

(** The default backtester on [buy_df]: the position bought at the second
    bar is still open after the last bar. *)
Lemma forced_liquidation_witness :
  exists st r,
    simulate default_backtester 1 buy_df = Some st /\
    0 < position st /\
    run_backtest default_backtester buy_df 1 = Returned r /\
    final_balance r
    = balance st + (position st * 100 - position st * 100 * (1 # 1000)) /\
    final_balance r == 9980 /\
    last (map snd (res_equity_curve r)) 0 = final_balance r.
Proof.
  eexists. eexists. split; [reflexivity|]. split; [reflexivity|].
  split; [reflexivity|].
  destruct (forced_liquidation default_backtester 1 buy_df _ _
              eq_refl eq_refl eq_refl) as (H1 & _ & H3).
  split; [exact H1|]. split; [reflexivity | exact H3].
Defined.

Lemma liquidation_not_logged_witness :
  exists st r,
    simulate default_backtester 1 buy_df = Some st /\
    0 < position st /\
    run_backtest default_backtester buy_df 1 = Returned r /\
    total_trades r = 1%nat /\
    (exists l b, res_trades r = l ++ [b] /\ tr_type b = BUY /\
                 tr_quantity b = position st) /\
    last (map snd (res_equity_curve r)) 0 = final_balance r.
Proof.
  eexists. eexists. split; [reflexivity|]. split; [reflexivity|].
  split; [reflexivity|].
  destruct (liquidation_not_logged default_backtester 1 buy_df _ _
              eq_refl eq_refl eq_refl) as (_ & H2 & H3 & _ & _ & H6).
  split; [exact H2|]. split; [exact H3 | exact H6].
Defined.



(** A winning round trip. *)
Example round_trip_win_rate :
  exists r,
    run_backtest (mkBacktester 10000 0) round_trip_df 1 = Returned r /\
    win_rate r == 100 /\ total_trades r = 2%nat /\ final_balance r == 11000.
Proof.
  eexists. split; [reflexivity|]. repeat split.
Qed.

(** The win-rate scenario of the specification: a winning pair (100 to
    110) and a losing pair (100 to 90). *)
Example two_pairs_win_rate :
  option_map Qred
    (win_rate_of [mkTrade 2 BUY 100 1 0; mkTrade 3 SELL 110 1 110;
                  mkTrade 5 BUY 100 1 10; mkTrade 7 SELL 90 1 100])
  = Some 50.
Proof. reflexivity. Qed.

(** The scenario of the specification: Buy at the third bar, Sell at the
    fifth, final balance 190000/21 (about 9047.62). *)
Example scenario_run :
  option_map (fun st => (Qred (balance st), Qred (position st),
                         map tr_timestamp (trades st)))
             (simulate (mkBacktester 10000 0) 1 scenario_df)
  = Some (190000 # 21, 0, [3%Z; 5%Z]).
Proof. vm_compute. reflexivity. Qed.

(** The empty-trades scenario of the specification. *)
Example hold_only_result :
  exists r,
    run_backtest default_backtester hold_df 1 = Returned r /\
    total_trades r = 0%nat /\ final_balance r = 10000 /\
    total_return r == 0 /\ win_rate r = 0 /\
    exists m, max_drawdown r = Fin m /\ m == 0.
Proof.
  eexists. split; [reflexivity|]. repeat split.
  eexists. split; reflexivity.
Qed.

(** ** The equity curve, point by point *)

Lemma loop_prefix self ps df n i st :
  loop self ps df n = Some st -> (i <= n)%nat ->
  exists st_i, loop self ps df i = Some st_i.
Proof.
  intros Hst Hi. destruct (loop self ps df i) as [st_i|] eqn:E; [eauto|].
  rewrite (loop_stopped self ps df i n Hi E) in Hst. discriminate.
Qed.

Lemma loop_S_equity self ps df n st st' :
  loop self ps df n = Some st -> loop self ps df (S n) = Some st' ->
  equity_curve st'
  = equity_curve st ++
    [balance st' +
     (if Qltb 0 (position st') then position st' * close (iloc df (S n))
      else 0)].
Proof.
  intros Hst. rewrite loop_S, Hst. simpl. rewrite Nat.sub_0_r. unfold step.
  destruct (execute _ _ _ _ _ st) as [st1|] eqn:He; [|discriminate].
  simpl. intros [= <-]. simpl.
  apply execute_cases in He.
  destruct He as [(_ & _ & _ & ->) | [(_ & _ & ->) | (-> & _ & _)]];
    reflexivity.
Qed.

(** The equity curve only grows: the points of the bars [0 .. i] are not
    touched by the later bars. *)
Lemma loop_equity_prefix self ps df i st_i n st :
  loop self ps df i = Some st_i -> loop self ps df n = Some st ->
  (i <= n)%nat ->
  firstn (S i) (equity_curve st) = equity_curve st_i.
Proof.
  intros Hi Hn Hle. revert st Hn.
  induction Hle as [|n Hle IH]; intros st Hn.
  - rewrite Hi in Hn. injection Hn as <-.
    apply firstn_all2. rewrite (loop_equity_length _ _ _ _ _ Hi). lia.
  - destruct (loop_prefix self ps df (S n) n st Hn) as [st0 H0]; [lia|].
    rewrite (loop_S_equity self ps df n st0 st H0 Hn).
    rewrite firstn_app.
    rewrite (loop_equity_length _ _ _ _ _ H0).
    replace (S i - S n)%nat with 0%nat by lia.
    simpl firstn at 2. rewrite app_nil_r. apply IH, H0.
Qed.

Lemma nth_set_last l x i d :
  (S i < length l)%nat -> nth i (set_last l x) d = nth i l d.
Proof.
  intros Hi. unfold set_last.
  destruct l as [|y l] using rev_ind; [simpl in Hi; lia|].
  rewrite removelast_last. rewrite length_app in Hi. simpl in Hi.
  rewrite !app_nth1 by lia. reflexivity.
Qed.

(** X3.  The equity curve of a result has one point per row of the frame,
    indexed by the frame's timestamps.  Its first point is the initial
    balance, and for every bar [i] between the first and the last its
    point is the mark-to-market equity right after bar [i]: the balance,
    plus position times the close of bar [i] when a position is open. *)
Theorem equity_curve_points self ps df r :
  run_backtest self df ps = Returned r ->
  length (res_equity_curve r) = length df /\
  map fst (res_equity_curve r) = map timestamp df /\
  nth 0 (map snd (res_equity_curve r)) 0 = initial_balance self /\
  forall i, (1 <= i)%nat -> (S i < length df)%nat ->
    exists st_i,
      loop self ps df i = Some st_i /\
      nth i (map snd (res_equity_curve r)) 0
      = balance st_i +
        (if Qltb 0 (position st_i) then position st_i * close (iloc df i)
         else 0).
Proof.
  intros Hr.
  apply run_backtest_returned in Hr as (st & Hst & Hm).
  apply metrics_returned in Hm as (Hlen & _ & _ & _ & _ & _ & He & Hf & _).
  pose proof (loop_equity_length _ _ _ _ _ Hst) as Hl.
  assert (Hcurve : forall i, (S i < length df)%nat ->
             nth i (snd (close_open_position self df st)) 0
             = nth i (equity_curve st) 0).
  { intros i Hi. unfold close_open_position.
    destruct (Qltb 0 (position st)); simpl; [|reflexivity].
    apply nth_set_last. lia. }
  split; [|split; [exact Hf|split]].
  - rewrite <- (length_map snd), He. exact Hlen.
  - rewrite He.
    destruct (Nat.eq_dec (length df) 1) as [E1|E1].
    + unfold simulate in Hst. rewrite E1 in Hst. simpl in Hst.
      rewrite loop_0 in Hst. injection Hst as <-. reflexivity.
    + assert (Hdf : (1 < length df)%nat).
      { rewrite (simulate_equity_length _ _ _ _ Hst) in Hlen. lia. }
      rewrite (Hcurve 0%nat Hdf).
      pose proof (loop_equity_prefix self ps df 0 (init_state self) _ st
                    (loop_0 self ps df) Hst (Nat.le_0_l _)) as Hp.
      simpl in Hp. destruct (equity_curve st) as [|e l]; [discriminate|].
      simpl in Hp. injection Hp as ->. reflexivity.
  - intros i Hi1 Hi2. rewrite He, (Hcurve i Hi2).
    destruct (loop_prefix self ps df _ i st Hst) as [st_i Hsti]; [lia|].
    exists st_i. split; [exact Hsti|].
    pose proof (loop_equity_prefix self ps df i st_i _ st Hsti Hst) as Hp.
    rewrite <- (firstn_skipn (S i) (equity_curve st)), Hp by lia.
    rewrite app_nth1
      by (rewrite (loop_equity_length _ _ _ _ _ Hsti); lia).
    destruct i as [|i]; [lia|].
    destruct (loop_prefix self ps df _ i st Hst) as [st0 H0]; [lia|].
    rewrite (loop_S_equity self ps df i st0 st_i H0 Hsti).
    rewrite app_nth2, (loop_equity_length _ _ _ _ _ H0), Nat.sub_diag
      by (rewrite (loop_equity_length _ _ _ _ _ H0); lia).
    reflexivity.
Qed.

Lemma equity_curve_points_witness :
  exists r,
    run_backtest (mkBacktester 10000 0) round_trip_df 1 = Returned r /\
    length (res_equity_curve r) = length round_trip_df /\
    map fst (res_equity_curve r) = map timestamp round_trip_df /\
    nth 0 (map snd (res_equity_curve r)) 0 = 10000.
Proof.
  eexists. split; [reflexivity |].
  destruct (equity_curve_points (mkBacktester 10000 0) 1 round_trip_df _
              eq_refl) as (H1 & H2 & H3 & _).
  split; [exact H1 |]. split; [exact H2 | exact H3].
Defined.

(** ** Sells close what the Buy opened *)

Lemma snoc_eq_split (A : Type) (l l1 l2 : list A) (t s : A) :
  l ++ [t] = l1 ++ s :: l2 ->
  (l2 = [] /\ l1 = l /\ s = t) \/
  (exists l2', l2 = l2' ++ [t] /\ l = l1 ++ s :: l2').
Proof.
  destruct l2 as [|x l2] using rev_ind.
  - intros E. apply app_inj_tail in E as [-> ->]. left. auto.
  - intros E. rewrite app_comm_cons, app_assoc in E.
    apply app_inj_tail in E as [-> ->]. right. eauto.
Qed.

Lemma sell_after_buy_snoc_buy c l t :
  sell_after_buy c l -> tr_type t = BUY -> sell_after_buy c (l ++ [t]).
Proof.
  intros Hl Ht l1 s l2 E Hs.
  apply snoc_eq_split in E as [(_ & _ & ->) | (l2' & _ & ->)].
  - congruence.
  - eapply Hl; eauto.
Qed.

Lemma sell_after_buy_snoc_sell c l b s :
  sell_after_buy c (l ++ [b]) -> tr_type b = BUY ->
  tr_quantity s = tr_quantity b -> 0 < tr_quantity b ->
  tr_balance s
  = tr_balance b +
    (tr_quantity b * tr_price s - tr_quantity b * tr_price s * c) ->
  sell_after_buy c ((l ++ [b]) ++ [s]).
Proof.
  intros Hl Hb Hq Hpos Hbal l1 s' l2 E Hs.
  apply snoc_eq_split in E as [(_ & -> & ->) | (l2' & _ & E)].
  - exists l, b. auto.
  - eapply Hl; eauto.
Qed.

Lemma loop_sell_after_buy self ps df n st :
  loop self ps df n = Some st ->
  sell_after_buy (commission self) (trades st) /\
  (0 < position st ->
   exists l b, trades st = l ++ [b] /\ tr_type b = BUY /\
               tr_quantity b = position st /\ tr_balance b = balance st).
Proof.
  revert n st. apply loop_ind.
  - simpl. split.
    + intros l1 s l2 E. destruct l1; discriminate.
    + intros H. exfalso. revert H. apply Qlt_irrefl.
  - intros n st st' _ [IH1 IH2] He. simpl.
    apply execute_cases in He.
    destruct He as [(_ & _ & _ & ->) | [(_ & Hp & ->) | (-> & _ & _)]];
      simpl; [| |auto].
    + split; [apply sell_after_buy_snoc_buy; auto|].
      intros _. eexists. eexists. split; [reflexivity|]. simpl. auto.
    + split; [|intros H; exfalso; revert H; apply Qlt_irrefl].
      destruct (IH2 Hp) as (l & b & E & Hb & Hq & Hbal).
      rewrite E in *. apply sell_after_buy_snoc_sell; simpl; auto.
      * rewrite Hq. exact Hp.
      * rewrite Hq, Hbal. reflexivity.
Qed.

(** X4.  No shorting and no partial exit.  In the trade list of a result
    every Sell comes directly after a Buy, sells exactly the quantity that
    this Buy bought, a positive one, and records as balance the balance
    recorded with the Buy plus the value sold minus the commission on it. *)
Theorem sells_close_the_position self ps df r :
  run_backtest self df ps = Returned r ->
  sell_after_buy (commission self) (res_trades r).
Proof.
  intros Hr.
  apply run_backtest_returned in Hr as (st & Hst & Hm).
  apply metrics_returned in Hm as (_ & _ & _ & _ & _ & -> & _).
  eapply loop_sell_after_buy, Hst.
Qed.

Lemma sells_close_the_position_witness :
  exists r,
    run_backtest (mkBacktester 10000 0) round_trip_df 1 = Returned r /\
    sell_after_buy 0 (res_trades r).
Proof.
  eexists. split; [reflexivity |].
  exact (sells_close_the_position (mkBacktester 10000 0) 1 round_trip_df _
           eq_refl).
Defined.

(** ** Range of the win rate *)

Lemma count_filter_le (f : Q -> bool) l :
  Series.count (filter f l) <= Series.count l.
Proof.
  unfold Series.count. rewrite <- Zle_Qle. apply inj_le, filter_length_le.
Qed.

Lemma win_rate_of_bounds trades wr :
  win_rate_of trades = Some wr -> 0 <= wr <= 100.
Proof.
  unfold win_rate_of.
  destruct (0 <? length trades)%nat; [|intros [= <-]; lra].
  destruct (_ && _)%bool; [|intros [= <-]; lra].
  destruct (profits_of _ _) as [[|p profits]|]; try discriminate;
    intros [= <-]; [lra|].
  set (l := p :: profits).
  pose proof (count_filter_le (fun p0 => Qltb 0 p0) l) as Hle.
  assert (Hpos : 0 < Series.count l).
  { unfold Series.count, l. simpl length. rewrite <- (Zlt_Qlt 0). lia. }
  assert (H0 : 0 <= Series.count (filter (fun p0 => Qltb 0 p0) l)).
  { unfold Series.count. rewrite <- (Zle_Qle 0). lia. }
  split.
  - apply Qmult_le_0_compat; [|discriminate].
    apply Qle_shift_div_l; [exact Hpos | rewrite Qmult_0_l; exact H0].
  - assert (Hq : Series.count (filter (fun p0 => Qltb 0 p0) l)
                 / Series.count l <= 1)
      by (apply Qle_shift_div_r; [exact Hpos | rewrite Qmult_1_l; exact Hle]).
    setoid_replace 100 with (1 * 100) at 2 by ring.
    apply Qmult_le_compat_r; [exact Hq | discriminate].
Qed.

(** X5.  The win rate of a result is a percentage: it lies between 0 and
    100. *)
Theorem win_rate_is_percentage self ps df r :
  run_backtest self df ps = Returned r -> 0 <= win_rate r <= 100.
Proof.
  intros Hr.
  apply run_backtest_returned in Hr as (st & Hst & Hm).
  apply metrics_returned in Hm as (_ & _ & _ & _ & _ & _ & _ & _ & Hw & _).
  eapply win_rate_of_bounds, Hw.
Qed.

Lemma win_rate_is_percentage_witness :
  exists r,
    run_backtest (mkBacktester 10000 0) round_trip_df 1 = Returned r /\
    0 <= win_rate r <= 100.
Proof.
  eexists. split; [reflexivity |].
  exact (win_rate_is_percentage (mkBacktester 10000 0) 1 round_trip_df _
           eq_refl).
Defined.

(** ** Range of the drawdown *)






(** ** Constant prices *)







(** ** Series with NaN: lists, windows, shifts *)

Lemma zip_with_length (A B C : Type) (f : A -> B -> C) a b :
  length (zip_with f a b) = Nat.min (length a) (length b).
Proof.
  revert b. induction a as [|x a IH]; intros [|y b]; simpl; auto.
Qed.

Lemma zip_with_nth_error (A B C : Type) (f : A -> B -> C) a b i :
  nth_error (zip_with f a b) i
  = match nth_error a i, nth_error b i with
    | Some x, Some y => Some (f x y)
    | _, _ => None
    end.
Proof.
  revert b i. induction a as [|x a IH]; intros [|y b] [|i]; simpl; auto.
  destruct (nth_error a i); reflexivity.
Qed.

Lemma Forall_nth_error (A : Type) (P : A -> Prop) l :
  (forall i x, nth_error l i = Some x -> P x) -> Forall P l.
Proof.
  intros H. apply Forall_forall. intros x Hx.
  apply In_nth_error in Hx as [i Hi]. eapply H, Hi.
Qed.

Lemma removelast_length (A : Type) (l : list A) :
  length (removelast l) = pred (length l).
Proof.
  rewrite removelast_firstn_len, length_firstn. lia.
Qed.

Lemma shift_length (A : Type) (nan : A) s : length (shift nan s) = length s.
Proof.
  destruct s as [|x s]; [reflexivity|].
  unfold shift. cbn [length]. rewrite removelast_length. simpl. lia.
Qed.

Lemma shift_nth_error_0 (A : Type) (nan : A) s :
  s <> [] -> nth_error (shift nan s) 0 = Some nan.
Proof. destruct s; [contradiction | reflexivity]. Qed.

Lemma shift_nth_error_S (A : Type) (nan : A) s i :
  (S i < length s)%nat -> nth_error (shift nan s) (S i) = nth_error s i.
Proof.
  intros Hi. destruct s as [|x s]; [simpl in Hi; lia|].
  unfold shift. cbn [nth_error].
  destruct (x :: s) as [|y l] eqn:E using rev_ind; [discriminate|].
  rewrite removelast_last. rewrite length_app in Hi. simpl in Hi.
  rewrite nth_error_app1 by lia. reflexivity.
Qed.

Lemma all_some_map_Some l : Rolling.all_some (map Some l) = Some l.
Proof.
  induction l as [|x l IH]; simpl; [reflexivity|]. rewrite IH. reflexivity.
Qed.

Lemma all_some_incl w xs :
  Rolling.all_some w = Some xs -> w = map Some xs.
Proof.
  revert xs. induction w as [|[x|] w IH]; simpl; intros xs.
  - intros [= <-]. reflexivity.
  - destruct (Rolling.all_some w) as [ys|]; [|discriminate].
    simpl. intros [= <-]. simpl. f_equal. auto.
  - discriminate.
Qed.

Lemma window_length (A : Type) n i (s : list A) :
  (i < length s)%nat -> length (Rolling.window n i s) = Nat.min (S i) n.
Proof.
  intros Hi. unfold Rolling.window. rewrite length_skipn, length_firstn. lia.
Qed.

Lemma In_skipn (A : Type) k (l : list A) x : In x (skipn k l) -> In x l.
Proof.
  intros H. rewrite <- (firstn_skipn k l). apply in_or_app. right. exact H.
Qed.

Lemma In_firstn (A : Type) k (l : list A) x : In x (firstn k l) -> In x l.
Proof.
  intros H. rewrite <- (firstn_skipn k l). apply in_or_app. left. exact H.
Qed.

Lemma window_incl (A : Type) n i (s : list A) x :
  In x (Rolling.window n i s) -> In x s.
Proof.
  unfold Rolling.window. intros H. eapply In_firstn, In_skipn, H.
Qed.

Lemma apply_length f n s : length (Rolling.apply f n s) = length s.
Proof. unfold Rolling.apply. rewrite length_map, length_seq. reflexivity. Qed.

Lemma apply_nth_error f n s i :
  (i < length s)%nat ->
  nth_error (Rolling.apply f n s) i
  = Some (option_map f (Rolling.observations n (Rolling.window n i s))).
Proof.
  intros Hi. unfold Rolling.apply.
  rewrite nth_error_map, nth_error_seq.
  apply Nat.ltb_lt in Hi. rewrite Hi. reflexivity.
Qed.

(** What a rolling window holds when it yields a value: [n >= 1]
    observations, the last [n] entries up to position [i], none of them
    NaN. *)
Lemma observations_some n i s xs :
  (i < length s)%nat ->
  Rolling.observations n (Rolling.window n i s) = Some xs ->
  (1 <= n <= S i)%nat /\ length xs = n /\
  Rolling.window n i s = map Some xs.
Proof.
  intros Hi. unfold Rolling.observations.
  destruct (Nat.eqb_spec n 0) as [->|Hn]; [discriminate|]. simpl.
  destruct (Nat.ltb_spec (length (Rolling.window n i s)) n) as [Hl|Hl];
    [discriminate|].
  intros E. apply all_some_incl in E.
  rewrite window_length in Hl by exact Hi.
  split; [lia|]. split; [|exact E].
  apply (f_equal (@length _)) in E.
  rewrite length_map, window_length in E by exact Hi. lia.
Qed.

Lemma observations_none n i s :
  (i < length s)%nat -> (S i < n)%nat ->
  Rolling.observations n (Rolling.window n i s) = None.
Proof.
  intros Hi Hn. unfold Rolling.observations.
  rewrite window_length by exact Hi.
  destruct (Nat.eqb_spec n 0) as [->|_]; [reflexivity|]. cbn [orb].
  assert ((Nat.min (S i) n <? n)%nat = true) as -> by (apply Nat.ltb_lt; lia).
  reflexivity.
Qed.

Lemma observations_full n i l :
  (i < length l)%nat -> (1 <= n <= S i)%nat ->
  Rolling.observations n (Rolling.window n i (map Some l))
  = Some (Rolling.window n i l).
Proof.
  intros Hi Hn. unfold Rolling.observations.
  rewrite window_length by (rewrite length_map; exact Hi).
  destruct (Nat.eqb_spec n 0) as [->|_]; [lia|]. cbn [orb].
  assert ((Nat.min (S i) n <? n)%nat = false) as -> by (apply Nat.ltb_ge; lia).
  unfold Rolling.window. rewrite firstn_map, skipn_map.
  apply all_some_map_Some.
Qed.

(** ** Means stay between the bounds of what they average *)

Lemma sum_bounds lo hi l :
  Forall (fun x => lo <= x /\ x <= hi) l ->
  Series.count l * lo <= Series.sum l /\ Series.sum l <= Series.count l * hi.
Proof.
  unfold Series.count.
  induction 1 as [|x l [Hx1 Hx2] _ [IH1 IH2]].
  - simpl. change (inject_Z 0) with 0. rewrite !Qmult_0_l.
    split; apply Qle_refl.
  - cbn [length Series.sum fold_right]. rewrite Nat2Z.inj_succ.
    unfold Z.succ. rewrite inject_Z_plus. change (inject_Z 1) with 1.
    fold (Series.sum l). revert IH1 IH2.
    generalize (inject_Z (Z.of_nat (length l))) (Series.sum l).
    intros c s IH1 IH2.
    setoid_replace ((c + 1) * lo) with (c * lo + lo) by ring.
    setoid_replace ((c + 1) * hi) with (c * hi + hi) by ring.
    split; lra.
Qed.

Lemma mean_bounds lo hi l :
  l <> [] -> Forall (fun x => lo <= x /\ x <= hi) l ->
  lo <= Series.mean l /\ Series.mean l <= hi.
Proof.
  intros Hne Hl. destruct (sum_bounds lo hi l Hl) as [H1 H2].
  assert (Hc : 0 < Series.count l).
  { unfold Series.count. rewrite <- (Zlt_Qlt 0).
    destruct l; [contradiction | simpl; lia]. }
  unfold Series.mean. split.
  - apply Qle_shift_div_l; [exact Hc | lra].
  - apply Qle_shift_div_r; [exact Hc | lra].
Qed.

(** ** Simple moving average *)



(** ** Exponential moving average *)

Lemma ewm_alpha_range span :
  (1 <= span)%nat -> 0 < ewm_alpha span /\ ewm_alpha span <= 1.
Proof.
  intros Hs. unfold ewm_alpha.
  assert (H : 1 <= inject_Z (Z.of_nat span))
    by (rewrite <- (Zle_Qle 1); lia).
  split.
  - apply Qlt_shift_div_l; lra.
  - apply Qle_shift_div_r; lra.
Qed.

Lemma ewm_from_length alpha y l : length (ewm_from alpha y l) = length l.
Proof.
  revert y. induction l; intros y; simpl; [reflexivity|]. f_equal. auto.
Qed.

Lemma convex_bounds (a x y lo hi : Q) :
  0 < a -> a <= 1 -> lo <= x <= hi -> lo <= y <= hi ->
  lo <= (1 - a) * y + a * x <= hi.
Proof.
  intros Ha0 Ha1 [Hx1 Hx2] [Hy1 Hy2].
  assert (0 <= (1 - a) * (y - lo)) by (apply Qmult_le_0_compat; lra).
  assert (0 <= a * (x - lo)) by (apply Qmult_le_0_compat; lra).
  assert (0 <= (1 - a) * (hi - y)) by (apply Qmult_le_0_compat; lra).
  assert (0 <= a * (hi - x)) by (apply Qmult_le_0_compat; lra).
  split.
  - setoid_replace ((1 - a) * y + a * x)
      with (lo + ((1 - a) * (y - lo) + a * (x - lo))) by ring.
    lra.
  - setoid_replace ((1 - a) * y + a * x)
      with (hi - ((1 - a) * (hi - y) + a * (hi - x))) by ring.
    lra.
Qed.

Lemma ewm_from_bounds alpha y l lo hi :
  0 < alpha -> alpha <= 1 -> lo <= y <= hi ->
  Forall (fun x => lo <= x <= hi) l ->
  Forall (fun x => lo <= x <= hi) (ewm_from alpha y l).
Proof.
  intros Ha0 Ha1 Hy Hl. revert y Hy.
  induction Hl as [|x l Hx _ IH]; intros y Hy; simpl; constructor.
  - apply convex_bounds; assumption.
  - apply IH, convex_bounds; assumption.
Qed.

Lemma ema_bounds_returned (prices : list Q) (period : nat) (lo hi : Q) :
  Forall (fun x => lo <= x <= hi) prices -> (1 <= period)%nat ->
  exists ema,
    calculate_ema prices period = Returned ema /\
    Forall (fun y => lo <= y <= hi) ema.
Proof.
  intros Hb Hp. unfold calculate_ema, ewm_mean.
  destruct (ewm_alpha_range period Hp) as [Ha0 Ha1].
  assert ((period <? 1)%nat = false) as -> by (apply Nat.ltb_ge; exact Hp).
  eexists. split; [reflexivity|].
  destruct Hb as [|x l Hx Hl]; constructor; [exact Hx|].
  apply ewm_from_bounds; assumption.
Qed.



(** ** MACD *)








Lemma calculate_macd_lengths prices fast slow sig m :
  calculate_macd prices fast slow sig = Returned m ->
  length (macd_line m) = length prices /\
  length (macd_signal m) = length prices /\
  length (macd_histogram m) = length prices.
Proof.
  assert (Hl : forall span l ys,
             ewm_mean span l = Returned ys -> length ys = length l).
  { intros span l ys. unfold ewm_mean.
    destruct (span <? 1)%nat; [discriminate|]. intros [= <-].
    destruct l; simpl; [reflexivity|]. rewrite ewm_from_length.
    reflexivity. }
  unfold calculate_macd.
  destruct (ewm_mean fast prices) as [ef| |] eqn:Ef; try discriminate.
  destruct (ewm_mean slow prices) as [es| |] eqn:Es; try discriminate.
  destruct (ewm_mean sig (zip_with Qminus ef es)) as [sg| |] eqn:Eg;
    try discriminate.
  intros [= <-]. simpl.
  apply Hl in Ef, Es, Eg. rewrite zip_with_length in Eg.
  rewrite !zip_with_length. lia.
Qed.

(** ** RSI *)

Lemma sum_nonneg xs : Forall (fun x => 0 <= x) xs -> 0 <= Series.sum xs.
Proof.
  induction 1 as [|x xs Hx _ IH]; simpl; [apply Qle_refl|].
  fold (Series.sum xs). lra.
Qed.

Lemma mean_nonneg xs :
  xs <> [] -> Forall (fun x => 0 <= x) xs -> 0 <= Series.mean xs.
Proof.
  intros Hne Hxs. unfold Series.mean.
  apply Qle_shift_div_l.
  - unfold Series.count. rewrite <- (Zlt_Qlt 0).
    destruct xs; [contradiction | simpl; lia].
  - rewrite Qmult_0_l. apply sum_nonneg, Hxs.
Qed.

(** A rolling mean over entries that are NaN or not negative has entries
    that are NaN or not negative. *)
Lemma rolling_mean_nonneg n s :
  Forall (fun g => forall v, g = Some v -> 0 <= v) s ->
  Forall (fun g => forall v, g = Some v -> 0 <= v) (Rolling.mean n s).
Proof.
  intros Hs. apply Forall_nth_error. intros i g Hi v ->.
  assert (Hlen : (i < length s)%nat).
  { rewrite <- (apply_length Series.mean n s).
    apply nth_error_Some. unfold Rolling.mean in Hi. congruence. }
  unfold Rolling.mean in Hi. rewrite apply_nth_error in Hi by exact Hlen.
  injection Hi as Hi.
  destruct (Rolling.observations n _) as [xs|] eqn:E; [|discriminate].
  injection Hi as <-.
  destruct (observations_some _ _ _ _ Hlen E) as (Hn & Hxs & Hw).
  apply mean_nonneg.
  - intros ->. simpl in Hxs. lia.
  - apply Forall_forall. intros x Hx.
    assert (Hin : In (Some x) s).
    { apply (window_incl _ n i). rewrite Hw. apply in_map, Hx. }
    rewrite Forall_forall in Hs. exact (Hs _ Hin x eq_refl).
Qed.

Lemma nonneg_map_Some l :
  Forall (fun x => 0 <= x) l ->
  Forall (fun g => forall v, g = Some v -> 0 <= v) (map Some l).
Proof.
  intros H. apply Forall_map. eapply Forall_impl; [|exact H].
  simpl. intros x Hx v [= <-]. exact Hx.
Qed.

Lemma where_positive_nonneg d : Forall (fun x => 0 <= x) (where_positive d).
Proof.
  unfold where_positive. apply Forall_map, Forall_forall. intros [x|] _.
  - destruct (Qltb 0 x) eqn:E; [apply Qltb_lt in E; lra | lra].
  - lra.
Qed.

Lemma where_negative_nonneg d :
  Forall (fun x => 0 <= x) (map Qopp (where_negative d)).
Proof.
  unfold where_negative. apply Forall_map, Forall_map, Forall_forall.
  intros [x|] _.
  - destruct (Qltb x 0) eqn:E; [apply Qltb_lt in E; lra | lra].
  - lra.
Qed.

(** The RSI of an average gain and an average loss that are not negative:
    NaN or a number in [0, 100]. *)
Lemma rsi_entry_range (g l : option Q) :
  (forall v, g = Some v -> 0 <= v) -> (forall v, l = Some v -> 0 <= v) ->
  let x := xsub (XFin 100)
             (xdiv (XFin 100)
                (xadd (XFin 1) (xdiv (xfloat_of g) (xfloat_of l)))) in
  x = XNaN \/ exists v, x = XFin v /\ 0 <= v <= 100.
Proof.
  intros Hg Hl. destruct g as [g|]; [|left; reflexivity].
  destruct l as [l|]; [|left; reflexivity].
  specialize (Hg g eq_refl). specialize (Hl l eq_refl). simpl.
  destruct (Qeq_bool l 0) eqn:El.
  - destruct (Qltb 0 g) eqn:Eg.
    + right. simpl. eexists. split; [reflexivity|]. lra.
    + apply Qltb_ge in Eg.
      assert (Qltb g 0 = false) as -> by (apply Qltb_ge; exact Hg).
      left. reflexivity.
  - apply Qeq_bool_false in El. simpl.
    assert (Hlp : 0 < l) by lra.
    assert (Hrs : 0 <= g / l) by (apply Qle_shift_div_l; lra).
    assert (Hne : ~ 1 + g / l == 0) by lra.
    apply Qeq_bool_false in Hne. rewrite Hne.
    right. simpl. eexists. split; [reflexivity|].
    assert (H1 : 0 < 100 / (1 + g / l)) by (apply Qlt_shift_div_l; lra).
    assert (H2 : 100 / (1 + g / l) <= 100)
      by (apply Qle_shift_div_r; lra).
    lra.
Qed.

Lemma calculate_rsi_length prices period :
  length (calculate_rsi prices period) = length prices.
Proof.
  unfold calculate_rsi. rewrite length_map, zip_with_length.
  unfold Rolling.mean. rewrite !apply_length, !length_map.
  unfold where_positive, where_negative. rewrite !length_map.
  unfold diff. rewrite zip_with_length, shift_length. lia.
Qed.

(** X10.  [calculate_rsi] never leaves the scale: for any prices, with or
    without NaN, and any period, every entry of the RSI is NaN or a number
    between 0 and 100, infinities included in no case; and the RSI has
    the length of the prices. *)
Theorem rsi_range (prices : fseries) (period : nat) :
  length (calculate_rsi prices period) = length prices /\
  Forall (fun x => x = XNaN \/ exists v, x = XFin v /\ 0 <= v <= 100)
         (calculate_rsi prices period).
Proof.
  split; [apply calculate_rsi_length|]. unfold calculate_rsi.
  - apply Forall_map. apply Forall_nth_error. intros i x Hi.
    rewrite zip_with_nth_error in Hi.
    destruct (nth_error (Rolling.mean period
                           (map Some (where_positive (diff prices)))) i)
      as [g|] eqn:Eg; [|discriminate].
    destruct (nth_error (Rolling.mean period
                           (map Some (map Qopp
                                        (where_negative (diff prices))))) i)
      as [l|] eqn:El; [|discriminate].
    injection Hi as <-.
    apply rsi_entry_range.
    + pose proof (rolling_mean_nonneg period _
                    (nonneg_map_Some _
                       (where_positive_nonneg (diff prices)))) as H.
      rewrite Forall_forall in H. apply H. eapply nth_error_In, Eg.
    + pose proof (rolling_mean_nonneg period _
                    (nonneg_map_Some _
                       (where_negative_nonneg (diff prices)))) as H.
      rewrite Forall_forall in H. apply H. eapply nth_error_In, El.
Qed.

(** ** Average true range *)

Lemma nth_error_map_Some (A : Type) (l : list A) i :
  nth_error (map Some l) i = option_map Some (nth_error l i).
Proof. apply nth_error_map. Qed.

(** The true range of a bar is NaN or a number; on bars without NaN it is
    at least the bar's range [high - low], and from the second bar on it
    is at least the distance of the high to the previous close. *)
Lemma true_range_entry high low close i h l :
  length low = length high -> length close = length high ->
  nth_error high i = Some h -> nth_error low i = Some l ->
  exists v,
    nth_error (true_range (map Some high) (map Some low) (map Some close)) i
    = Some (Some v) /\
    h - l <= v /\
    forall j c, i = S j -> nth_error close j = Some c ->
                Qabs (h - c) <= v /\ Qabs (l - c) <= v.
Proof.
  intros Hl Hc Hh Hlo.
  assert (Hi : (i < length high)%nat) by (apply nth_error_Some; congruence).
  unfold true_range.
  rewrite zip_with_nth_error, zip_with_nth_error, !nth_error_map_Some.
  rewrite Hh, Hlo. simpl.
  rewrite zip_with_nth_error, !nth_error_map, !zip_with_nth_error.
  rewrite !nth_error_map_Some, Hh, Hlo. simpl.
  destruct i as [|j].
  - rewrite shift_nth_error_0
      by (destruct close; [simpl in *; lia | discriminate]).
    simpl. eexists. split; [reflexivity|]. split; [apply Qle_refl|].
    intros j c [=].
  - rewrite shift_nth_error_S by (rewrite length_map; lia).
    rewrite nth_error_map_Some.
    destruct (nth_error close j) as [c|] eqn:Ec.
    + simpl. unfold row_max. simpl. eexists. split; [reflexivity|].
      destruct (fmax_cases (h - l) (Qabs (h - c))) as (H1 & H2 & _).
      destruct (fmax_cases (Series.fmax (h - l) (Qabs (h - c)))
                  (Qabs (l - c))) as (H3 & H4 & _).
      split; [eapply Qle_trans; [exact H1 | exact H3]|].
      intros j' c' [= <-] E. rewrite Ec in E. injection E as <-.
      split; [eapply Qle_trans; [exact H2 | exact H3] | exact H4].
    + exfalso. apply nth_error_None in Ec. lia.
Qed.

(** X11.  [calculate_atr] on bars without NaN, all three columns of the
    same length.  The ATR has the length of the columns, and when the
    first bar has its low at or below its high, every entry is NaN or not
    negative.  (On the later bars the true range is not negative whatever
    the prices are.) *)
Theorem atr_nonneg (high low close : list Q) (period : nat) :
  length low = length high -> length close = length high ->
  (forall h l, hd_error high = Some h -> hd_error low = Some l -> l <= h) ->
  length (calculate_atr (map Some high) (map Some low) (map Some close)
            period) = length high /\
  Forall (fun a => forall v, a = Some v -> 0 <= v)
         (calculate_atr (map Some high) (map Some low) (map Some close)
            period).
Proof.
  intros Hl Hc H0. unfold calculate_atr. split.
  - unfold Rolling.mean. rewrite apply_length. unfold true_range.
    rewrite !zip_with_length, !length_map, !zip_with_length, !length_map.
    rewrite shift_length, length_map. lia.
  - apply rolling_mean_nonneg. apply Forall_nth_error. intros i x Hi v ->.
    assert (Hlen : (i < length high)%nat).
    { assert (Hn : nth_error (true_range (map Some high) (map Some low)
                                (map Some close)) i <> None) by congruence.
      apply nth_error_Some in Hn. unfold true_range in Hn.
      rewrite !zip_with_length, !length_map in Hn. lia. }
    destruct (nth_error high i) as [h|] eqn:Eh;
      [|apply nth_error_None in Eh; lia].
    destruct (nth_error low i) as [l|] eqn:El;
      [|apply nth_error_None in El; lia].
    destruct (true_range_entry high low close i h l Hl Hc Eh El)
      as (w & Hw & Hr & Hprev).
    rewrite Hw in Hi. injection Hi as <-.
    destruct i as [|j].
    + specialize (H0 h l). destruct high, low; try discriminate.
      simpl in *. injection Eh as ->. injection El as ->.
      specialize (H0 eq_refl eq_refl). lra.
    + destruct (nth_error close j) as [c|] eqn:Ec;
        [|apply nth_error_None in Ec; lia].
      destruct (Hprev j c eq_refl Ec) as [Ha _].
      pose proof (Qabs_nonneg (h - c)). lra.
Qed.

Lemma atr_nonneg_witness :
  Forall (fun a => forall v, a = Some v -> 0 <= v)
         (calculate_atr (map Some [3; 4]) (map Some [1; 2])
            (map Some [2; 3]) 2).
Proof.
  apply (atr_nonneg [3; 4] [1; 2] [2; 3] 2); [reflexivity | reflexivity |].
  intros h l [= <-] [= <-]. discriminate.
Defined.

(** ** The signals of the strategies *)

Lemma assign_length signals mask v :
  length (assign signals mask v) = Nat.min (length signals) (length mask).
Proof. apply zip_with_length. Qed.

Lemma assign_nth_error signals mask v i :
  nth_error (assign signals mask v) i
  = match nth_error signals i, nth_error mask i with
    | Some s, Some m => Some (if m : bool then v else s)
    | _, _ => None
    end.
Proof. apply zip_with_nth_error. Qed.

(** The two assignments [signals[buy_signal] = 1] and
    [signals[sell_signal] = -1] on a Series of zeros: every entry is -1, 0
    or 1, and an entry that is not 0 has its mask set. *)
Lemma two_assignments n buy sell i z :
  nth_error (assign (assign (repeat 0%Z n) buy 1%Z) sell (-1)%Z) i = Some z ->
  (z = (-1)%Z \/ z = 0%Z \/ z = 1%Z) /\
  (z <> 0%Z -> nth_error buy i = Some true \/ nth_error sell i = Some true).
Proof.
  rewrite !assign_nth_error.
  destruct (nth_error (repeat 0%Z n) i) as [z0|] eqn:E0; [|discriminate].
  apply nth_error_In, repeat_spec in E0. subst z0.
  destruct (nth_error buy i) as [[|]|]; try discriminate;
    destruct (nth_error sell i) as [[|]|]; try discriminate;
    intros [= <-]; split; auto; intros H; try contradiction; auto.
Qed.

Lemma sma_defined l n i v :
  nth_error (calculate_sma (map Some l) n) i = Some (Some v) ->
  (1 <= n <= S i)%nat.
Proof.
  intros H. unfold calculate_sma, Rolling.mean in H.
  assert (Hi : (i < length (map Some l))%nat).
  { rewrite <- (apply_length Series.mean n (map Some l)).
    apply nth_error_Some. congruence. }
  rewrite apply_nth_error in H by exact Hi. injection H as H.
  destruct (Rolling.observations n _) as [xs|] eqn:E; [|discriminate].
  apply (observations_some _ _ _ _ Hi E).
Qed.

Lemma shift_defined (s : fseries) i v :
  nth_error (shift None s) i = Some (Some v) ->
  exists j, i = S j /\ nth_error s j = Some (Some v).
Proof.
  intros H.
  assert (Hi : (i < length s)%nat).
  { rewrite <- (shift_length _ None s). apply nth_error_Some. congruence. }
  destruct i as [|j].
  - rewrite shift_nth_error_0 in H by (destruct s; [simpl in Hi; lia
                                                    | discriminate]).
    discriminate.
  - rewrite shift_nth_error_S in H by exact Hi. eauto.
Qed.

Lemma cmp2_true f x y :
  cmp2 f x y = true -> exists a b, x = Some a /\ y = Some b /\ f a b = true.
Proof. destruct x, y; simpl; try discriminate. eauto. Qed.

(** Where a crossing mask of two moving averages is set, both averages
    and their previous values are numbers. *)
Lemma crossing_defined (f1 f2 : Q -> Q -> bool) l fast slow i :
  nth_error
    (zip_with andb
       (zip_with (cmp2 f1) (calculate_sma (map Some l) fast)
                 (calculate_sma (map Some l) slow))
       (zip_with (cmp2 f2) (shift None (calculate_sma (map Some l) fast))
                 (shift None (calculate_sma (map Some l) slow)))) i
  = Some true ->
  (1 <= fast)%nat /\ (1 <= slow)%nat /\ (Nat.max fast slow <= i)%nat.
Proof.
  rewrite !zip_with_nth_error.
  destruct (nth_error (calculate_sma (map Some l) fast) i) as [a|] eqn:Ea;
    [|discriminate].
  destruct (nth_error (calculate_sma (map Some l) slow) i) as [b|] eqn:Eb;
    [|discriminate].
  destruct (nth_error (shift None (calculate_sma (map Some l) fast)) i)
    as [a'|] eqn:Ea'; [|discriminate].
  destruct (nth_error (shift None (calculate_sma (map Some l) slow)) i)
    as [b'|] eqn:Eb'; [|discriminate].
  intros [= H]. apply andb_true_iff in H as [H1 H2].
  apply cmp2_true in H1 as (x & y & -> & -> & _).
  apply cmp2_true in H2 as (x' & y' & -> & -> & _).
  apply shift_defined in Ea' as (j & -> & Ea').
  apply shift_defined in Eb' as (j' & [= <-] & Eb').
  apply sma_defined in Ea', Eb'. lia.
Qed.

Lemma simple_ma_crossover_length close fast slow :
  length (simple_ma_crossover close fast slow) = length close.
Proof.
  unfold simple_ma_crossover.
  rewrite !assign_length, repeat_length.
  unfold fgt, fle, flt, fge. rewrite !zip_with_length, !shift_length.
  unfold calculate_sma, Rolling.mean. rewrite !apply_length, !length_map.
  lia.
Qed.

(** X12.  The signals of [simple_ma_crossover]: one per bar, each of them
    -1, 0 or 1, and 0 on every bar before both moving averages have a
    value and a previous value, that is on the first
    [max fast_period slow_period] bars (and on all bars if a period
    is 0). *)
Theorem ma_crossover_signals (close : list Q) (fast slow : nat) :
  length (simple_ma_crossover close fast slow) = length close /\
  forall i z,
    nth_error (simple_ma_crossover close fast slow) i = Some z ->
    (z = (-1)%Z \/ z = 0%Z \/ z = 1%Z) /\
    (z <> 0%Z ->
     (1 <= fast)%nat /\ (1 <= slow)%nat /\ (Nat.max fast slow <= i)%nat).
Proof.
  split; [apply simple_ma_crossover_length|].
  unfold simple_ma_crossover.
  - intros i z Hz. apply two_assignments in Hz as [Hv Hm].
    split; [exact Hv|]. intros Hne.
    destruct (Hm Hne) as [H|H]; eapply crossing_defined, H.
Qed.

Lemma ma_crossover_signals_witness :
  exists z,
    nth_error (simple_ma_crossover wave 1 2) 3 = Some z /\
    (z = (-1)%Z \/ z = 0%Z \/ z = 1%Z) /\
    (z <> 0%Z -> (1 <= 1)%nat /\ (1 <= 2)%nat /\ (Nat.max 1 2 <= 3)%nat).
Proof.
  eexists. split; [reflexivity |].
  exact (proj2 (ma_crossover_signals wave 1 2) 3%nat _ eq_refl).
Defined.

(** ** Strategies under the backtester *)

Lemma with_signals_length data signals :
  length (with_signals data signals)
  = Nat.min (length data) (length signals).
Proof. apply zip_with_length. Qed.

Lemma with_signals_signal data signals j :
  signal (iloc (with_signals data signals) j) <> 0%Z ->
  nth_error signals j = Some (signal (iloc (with_signals data signals) j)).
Proof.
  unfold iloc, with_signals.
  destruct (nth_error (zip_with (fun bar s => mkRow (fst bar) (snd bar) s)
                         data signals) j) as [r|] eqn:E.
  - rewrite (nth_error_nth _ _ default_row E).
    rewrite zip_with_nth_error in E.
    destruct (nth_error data j); [|discriminate].
    destruct (nth_error signals j); [|discriminate].
    injection E as <-. reflexivity.
  - rewrite (nth_error_nth_None _ _ default_row E). simpl.
    intros H. contradiction H. reflexivity.
Qed.

(** Hold signals on the bars [0 .. n-1] leave the first [n] iterations
    without a trade. *)
Lemma hold_upto self ps df n :
  (forall j, (j < n)%nat ->
     signal (iloc df j) <> 1%Z /\ signal (iloc df j) <> (-1)%Z) ->
  exists st, loop self ps df n = Some st /\ trades st = [].
Proof.
  induction n as [|n IH]; intros Hh.
  - exists (init_state self). split; reflexivity.
  - destruct IH as (st & Hst & Ht); [intros j Hj; apply Hh; lia|].
    rewrite loop_S, Hst. simpl. unfold step.
    rewrite execute_mismatched
      by (right; right; rewrite Nat.sub_0_r; apply Hh; lia).
    simpl. eexists. split; [reflexivity|]. exact Ht.
Qed.

(** X13.  The moving-average strategy needs history before it can trade.
    On data of at most [max fast_period slow_period + 1] bars a backtest
    of [simple_ma_crossover] returns a result without any trade and with
    the initial balance as final balance (the data not empty and the
    initial balance not zero): with the default periods 20 and 50, up to
    51 bars. *)
Theorem ma_crossover_needs_history self data fast slow ps :
  data <> [] ->
  ~ initial_balance self == 0 ->
  (length data <= Nat.max fast slow + 1)%nat ->
  exists r,
    run_strategy self data
      (fun close => Returned (simple_ma_crossover close fast slow)) ps
    = Returned r /\
    total_trades r = 0%nat /\ res_trades r = [] /\
    final_balance r = initial_balance self.
Proof.
  intros Hne Hb Hlen. unfold run_strategy.
  set (sig := simple_ma_crossover (map snd data) fast slow).
  pose proof (simple_ma_crossover_length (map snd data) fast slow) as Hl.
  fold sig in Hl. rewrite length_map in Hl.
  assert (Hdl : length (with_signals data sig) = length data)
    by (rewrite with_signals_length; lia).
  assert (Hdf : with_signals data sig <> []).
  { intros E. rewrite E in Hdl. destruct data; [contradiction|discriminate]. }
  destruct (hold_upto self ps (with_signals data sig)
              (length (with_signals data sig) - 1)) as (st & Hst & Ht).
  { intros j Hj. rewrite Hdl in Hj.
    assert (Hz : signal (iloc (with_signals data sig) j) = 0%Z).
    { destruct (Z.eq_dec (signal (iloc (with_signals data sig) j)) 0)
        as [E|E]; [exact E|].
      pose proof (with_signals_signal data sig j E) as Hn.
      unfold sig, simple_ma_crossover in Hn.
      apply two_assignments in Hn as [_ Hw].
      destruct (Hw E) as [H|H]; apply crossing_defined in H; lia. }
    rewrite Hz. split; discriminate. }
  destruct (no_trades_run self ps _ st Hdf Hb Hst Ht)
    as (r & Hr & Hf & Hn & _).
  exists r. split; [exact Hr|]. split; [exact Hn|]. split; [|exact Hf].
  apply run_backtest_returned in Hr as (st' & Hst' & Hm).
  unfold simulate in Hst'. rewrite Hst in Hst'. injection Hst' as <-.
  apply metrics_returned in Hm as (_ & _ & _ & _ & _ & -> & _). exact Ht.
Qed.

Lemma ma_crossover_needs_history_witness :
  exists r,
    run_strategy default_backtester flat_data
      (fun close => Returned (simple_ma_crossover close 20 50)) 1
    = Returned r /\
    total_trades r = 0%nat /\ res_trades r = [] /\
    final_balance r = initial_balance default_backtester.
Proof.
  apply ma_crossover_needs_history.
  - discriminate.
  - discriminate.
  - simpl. lia.
Defined.

(** ** The MACD strategy *)

Lemma ewm_mean_returned span l :
  (1 <= span)%nat -> exists ys, ewm_mean span l = Returned ys.
Proof.
  intros Hs. unfold ewm_mean.
  assert ((span <? 1)%nat = false) as -> by (apply Nat.ltb_ge; exact Hs).
  eauto.
Qed.

Lemma calculate_macd_default prices :
  exists m, calculate_macd prices 12 26 9 = Returned m.
Proof.
  unfold calculate_macd.
  destruct (ewm_mean_returned 12 prices) as [ef ->]; [lia|].
  destruct (ewm_mean_returned 26 prices) as [es ->]; [lia|].
  destruct (ewm_mean_returned 9 (zip_with Qminus ef es)) as [sg ->]; [lia|].
  eauto.
Qed.







Lemma macd_masks_first (m : Macd) (f1 f2 : Q -> Q -> bool) i :
  nth_error
    (zip_with andb
       (zip_with (cmp2 f1) (map Some (macd_line m))
                 (map Some (macd_signal m)))
       (zip_with (cmp2 f2) (shift None (map Some (macd_line m)))
                 (shift None (map Some (macd_signal m))))) i
  = Some true -> (1 <= i)%nat.
Proof.
  rewrite !zip_with_nth_error.
  destruct (nth_error (map Some (macd_line m)) i); [|discriminate].
  destruct (nth_error (map Some (macd_signal m)) i); [|discriminate].
  destruct (nth_error (shift None (map Some (macd_line m))) i)
    as [a|] eqn:Ea; [|discriminate].
  destruct (nth_error (shift None (map Some (macd_signal m))) i);
    [|discriminate].
  intros [= H]. apply andb_true_iff in H as [_ H].
  apply cmp2_true in H as (x & y & -> & _).
  apply shift_defined in Ea as (j & -> & _). lia.
Qed.

(** X14.  [macd_strategy] always returns signals: one per bar, each of
    them -1, 0 or 1, and the first one 0. *)
Theorem macd_strategy_signals (close : list Q) :
  exists sig,
    macd_strategy close = Returned sig /\
    length sig = length close /\
    forall i z, nth_error sig i = Some z ->
      (z = (-1)%Z \/ z = 0%Z \/ z = 1%Z) /\ (z <> 0%Z -> (1 <= i)%nat).
Proof.
  unfold macd_strategy.
  destruct (calculate_macd_default close) as [m Hm].
  destruct (calculate_macd_lengths _ _ _ _ _ Hm) as (L1 & L2 & _).
  rewrite Hm. eexists. split; [reflexivity|]. split.
  - rewrite !assign_length, repeat_length.
    unfold fgt, fle, flt, fge. rewrite !zip_with_length, !shift_length.
    rewrite !length_map. lia.
  - intros i z Hz. apply two_assignments in Hz as [Hv Hmask].
    split; [exact Hv|]. intros Hne.
    destruct (Hmask Hne) as [H|H]; eapply macd_masks_first, H.
Qed.

Lemma macd_strategy_signals_witness :
  exists sig z,
    macd_strategy wave = Returned sig /\
    nth_error sig 0 = Some z /\
    (z = (-1)%Z \/ z = 0%Z \/ z = 1%Z) /\ (z <> 0%Z -> (1 <= 0)%nat).
Proof.
  destruct (macd_strategy_signals wave) as (sig & H1 & H2 & H3).
  destruct sig as [| z sig]; [discriminate H2 |].
  exists (z :: sig), z. split; [exact H1 |].
  split; [reflexivity |]. exact (H3 0%nat z eq_refl).
Defined.



(** On a constant price series both MACD lines are zero. *)
Lemma macd_constant prices c m :
  Forall (fun x => x == c) prices ->
  calculate_macd prices 12 26 9 = Returned m ->
  Forall (fun x => x == 0) (macd_line m) /\
  Forall (fun x => x == 0) (macd_signal m).
Proof.
  intros Hc. unfold calculate_macd.
  assert (Hb : Forall (fun x => c <= x <= c) prices).
  { eapply Forall_impl; [|exact Hc]. simpl. intros x Hx. lra. }
  destruct (ema_bounds_returned prices 12 c c Hb) as (ef & Ef & Hef); [lia|].
  destruct (ema_bounds_returned prices 26 c c Hb) as (es & Es & Hes); [lia|].
  unfold calculate_ema in Ef, Es. rewrite Ef, Es.
  assert (Hm : Forall (fun x => 0 <= x <= 0) (zip_with Qminus ef es)).
  { clear - Hef Hes. revert es Hes.
    induction Hef as [|x ef Hx _ IH]; intros es Hes; simpl; [constructor|].
    destruct Hes as [|y es Hy Hes]; constructor; [lra|]. apply IH, Hes. }
  destruct (ema_bounds_returned _ 9 0 0 Hm) as (sg & Eg & Hsg); [lia|].
  unfold calculate_ema in Eg. rewrite Eg. intros [= <-]. simpl. split.
  - eapply Forall_impl; [|exact Hm]. simpl. intros x Hx. lra.
  - eapply Forall_impl; [|exact Hsg]. simpl. intros x Hx. lra.
Qed.

Lemma zip_andb_true a b i :
  nth_error (zip_with andb a b) i = Some true ->
  nth_error a i = Some true /\ nth_error b i = Some true.
Proof.
  rewrite zip_with_nth_error.
  destruct (nth_error a i) as [[|]|]; try discriminate;
    destruct (nth_error b i) as [[|]|]; try discriminate.
  auto.
Qed.

Lemma cmp2_zero_false (f : Q -> Q -> bool) a b i :
  (forall x y, x == 0 -> y == 0 -> f x y = false) ->
  Forall (fun x => x == 0) a -> Forall (fun x => x == 0) b ->
  nth_error (zip_with (cmp2 f) (map Some a) (map Some b)) i <> Some true.
Proof.
  intros Hf Ha Hb. rewrite zip_with_nth_error, !nth_error_map.
  destruct (nth_error a i) as [x|] eqn:Ex; [|discriminate].
  destruct (nth_error b i) as [y|] eqn:Ey; [|discriminate].
  simpl. rewrite Hf; [discriminate| |].
  - rewrite Forall_forall in Ha. eapply Ha, nth_error_In, Ex.
  - rewrite Forall_forall in Hb. eapply Hb, nth_error_In, Ey.
Qed.

(** X16.  A flat market gives the MACD strategy nothing to do.  When
    every close is the same price, [macd_strategy] signals Hold on every
    bar, and a backtest of it returns a result without any trade and with
    the initial balance as final balance (the data not empty and the
    initial balance not zero). *)
Theorem macd_flat_market self data c ps :
  Forall (fun bar => snd bar == c) data ->
  data <> [] ->
  ~ initial_balance self == 0 ->
  exists sig r,
    macd_strategy (map snd data) = Returned sig /\
    Forall (fun z => z = 0%Z) sig /\
    run_strategy self data macd_strategy ps = Returned r /\
    total_trades r = 0%nat /\ final_balance r = initial_balance self.
Proof.
  intros Hc Hne Hb.
  assert (Hc' : Forall (fun x => x == c) (map snd data))
    by (apply Forall_map; exact Hc).
  destruct (calculate_macd_default (map snd data)) as [m Hm].
  destruct (macd_constant _ c m Hc' Hm) as [Hz1 Hz2].
  destruct (calculate_macd_lengths _ _ _ _ _ Hm) as (L1 & L2 & _).
  rewrite length_map in L1, L2.
  unfold run_strategy, macd_strategy. rewrite Hm.
  set (sig := assign _ _ _).
  assert (Hsig : Forall (fun z => z = 0%Z) sig).
  { apply Forall_nth_error. intros i z Hz.
    destruct (Z.eq_dec z 0) as [E|E]; [exact E|].
    unfold sig in Hz. apply two_assignments in Hz as [_ Hw].
    exfalso. destruct (Hw E) as [H|H]; apply zip_andb_true in H as [H _];
      revert H; apply cmp2_zero_false; auto;
      intros x y Hx Hy; apply Qltb_ge; lra. }
  assert (Hl : length sig = length data).
  { unfold sig. rewrite !assign_length, repeat_length.
    unfold fgt, fle, flt, fge. rewrite !zip_with_length, !shift_length.
    rewrite !length_map. lia. }
  assert (Hdl : length (with_signals data sig) = length data)
    by (rewrite with_signals_length; lia).
  assert (Hdf : with_signals data sig <> []).
  { intros E. rewrite E in Hdl. destruct data; [contradiction|discriminate]. }
  destruct (hold_upto self ps (with_signals data sig)
              (length (with_signals data sig) - 1)) as (st & Hst & Ht).
  { intros j _.
    assert (Hz : signal (iloc (with_signals data sig) j) = 0%Z).
    { destruct (Z.eq_dec (signal (iloc (with_signals data sig) j)) 0)
        as [E|E]; [exact E|].
      pose proof (with_signals_signal data sig j E) as Hn.
      rewrite Forall_forall in Hsig. eapply Hsig, nth_error_In, Hn. }
    rewrite Hz. split; discriminate. }
  destruct (no_trades_run self ps _ st Hdf Hb Hst Ht)
    as (r & Hr & Hf & Hn & _).
  exists sig, r. repeat split; auto.
Qed.

Lemma macd_flat_market_witness :
  exists sig r,
    macd_strategy (map snd flat_data) = Returned sig /\
    Forall (fun z => z = 0%Z) sig /\
    run_strategy default_backtester flat_data macd_strategy 1 = Returned r /\
    total_trades r = 0%nat /\
    final_balance r = initial_balance default_backtester.
Proof.
  apply (macd_flat_market default_backtester flat_data 100 1).
  - repeat constructor.
  - discriminate.
  - discriminate.
Defined.

(** ** The RSI strategy *)

(** An RSI entry that is not NaN comes from a full window. *)
Lemma rsi_defined prices period i x :
  nth_error (calculate_rsi prices period) i = Some x -> x <> XNaN ->
  (1 <= period <= S i)%nat.
Proof.
  unfold calculate_rsi. rewrite nth_error_map, zip_with_nth_error.
  destruct (nth_error (Rolling.mean period
                         (map Some (where_positive (diff prices)))) i)
    as [g|] eqn:Eg; [|discriminate].
  destruct (nth_error (Rolling.mean period
                         (map Some (map Qopp
                                      (where_negative (diff prices))))) i)
    as [l|]; [|discriminate].
  cbn [option_map]. intros E Hx. injection E as E. subst x.
  destruct g as [g|]; [|contradiction Hx; reflexivity].
  unfold Rolling.mean in Eg.
  assert (Hi : (i < length (map Some (where_positive (diff prices))))%nat).
  { rewrite <- (apply_length Series.mean period).
    apply nth_error_Some. congruence. }
  rewrite apply_nth_error in Eg by exact Hi. injection Eg as Eg.
  destruct (Rolling.observations period _) as [xs|] eqn:E; [|discriminate].
  apply (observations_some _ _ _ _ Hi E).
Qed.

Lemma rsi_crossing_defined (f1 f2 : xfloat -> bool) prices period i :
  f1 XNaN = false -> f2 XNaN = false ->
  nth_error
    (zip_with andb (map f1 (calculate_rsi prices period))
       (map f2 (shift XNaN (calculate_rsi prices period)))) i
  = Some true ->
  (1 <= period <= i)%nat.
Proof.
  intros H1 H2 H. apply zip_andb_true in H as [_ H].
  rewrite nth_error_map in H.
  destruct (nth_error (shift XNaN (calculate_rsi prices period)) i)
    as [x|] eqn:Ex; [|discriminate].
  injection H as H.
  assert (Hx : x <> XNaN) by (intros ->; congruence).
  assert (Hi : (i < length (calculate_rsi prices period))%nat).
  { rewrite <- (shift_length _ XNaN). apply nth_error_Some. congruence. }
  destruct i as [|j].
  - rewrite shift_nth_error_0 in Ex
      by (destruct (calculate_rsi prices period);
          [simpl in Hi; lia | discriminate]).
    congruence.
  - rewrite shift_nth_error_S in Ex by exact Hi.
    pose proof (rsi_defined _ _ _ _ Ex Hx). lia.
Qed.

(** X17.  The signals of [rsi_strategy]: one per bar, each of them -1, 0
    or 1, and 0 on the first [rsi_period] bars, before the RSI and its
    previous value are both numbers (on all bars if the period is 0). *)
Theorem rsi_strategy_signals (close : list Q) (period : nat)
    (oversold overbought : Q) :
  length (rsi_strategy close period oversold overbought) = length close /\
  forall i z,
    nth_error (rsi_strategy close period oversold overbought) i = Some z ->
    (z = (-1)%Z \/ z = 0%Z \/ z = 1%Z) /\
    (z <> 0%Z -> (1 <= period <= i)%nat).
Proof.
  unfold rsi_strategy. split.
  - pose proof (calculate_rsi_length (map Some close) period) as Hl.
    rewrite length_map in Hl.
    rewrite !assign_length, repeat_length, !zip_with_length, !length_map.
    rewrite shift_length, Hl. lia.
  - intros i z Hz. apply two_assignments in Hz as [Hv Hm].
    split; [exact Hv|]. intros Hne.
    destruct (Hm Hne) as [H|H];
      apply rsi_crossing_defined in H; auto.
Qed.

Lemma rsi_strategy_signals_witness :
  exists z,
    nth_error (rsi_strategy wave 2 30 70) 3 = Some z /\
    (z = (-1)%Z \/ z = 0%Z \/ z = 1%Z) /\
    (z <> 0%Z -> (1 <= 2 <= 3)%nat).
Proof.
  eexists. split; [reflexivity |].
  exact (proj2 (rsi_strategy_signals wave 2 30 70) 3%nat _ eq_refl).
Defined.

(** ** What a moving-average signal means *)

Lemma sma_entry l n i :
  (i < length l)%nat -> (1 <= n <= S i)%nat ->
  nth_error (calculate_sma (map Some l) n) i = Some (Some (sma_at l n i)).
Proof.
  intros Hi Hn. unfold calculate_sma, Rolling.mean.
  rewrite apply_nth_error by (rewrite length_map; exact Hi).
  rewrite observations_full by assumption. reflexivity.
Qed.

Lemma Qle_bool_false x y : Qle_bool x y = false <-> y < x.
Proof.
  rewrite <- Qltb_lt. unfold Qltb. destruct (Qle_bool x y); simpl; split;
    congruence.
Qed.

(** X18.  What the moving-average signals mean.  On a bar that has both
    averages and their previous values, the signal is 1 exactly when the
    fast average is above the slow one and was at or below it on the bar
    before, and -1 exactly when it is below the slow one and was at or
    above it on the bar before; the two assignments never meet on one
    bar. *)
Theorem ma_crossover_meaning (close : list Q) (fast slow j : nat) :
  (1 <= fast <= S j)%nat -> (1 <= slow <= S j)%nat ->
  (S j < length close)%nat ->
  exists z,
    nth_error (simple_ma_crossover close fast slow) (S j) = Some z /\
    (z = 1%Z <->
     sma_at close slow (S j) < sma_at close fast (S j) /\
     sma_at close fast j <= sma_at close slow j) /\
    (z = (-1)%Z <->
     sma_at close fast (S j) < sma_at close slow (S j) /\
     sma_at close slow j <= sma_at close fast j).
Proof.
  intros Hf Hs Hj. unfold simple_ma_crossover.
  assert (Hlen : forall n,
             length (calculate_sma (map Some close) n) = length close).
  { intros n. unfold calculate_sma, Rolling.mean.
    rewrite apply_length, length_map. reflexivity. }
  rewrite !assign_nth_error, nth_error_repeat by exact Hj.
  unfold fgt, fle, flt, fge. rewrite !zip_with_nth_error.
  rewrite !shift_nth_error_S by (rewrite Hlen; exact Hj).
  rewrite !sma_entry by (try lia). cbn [cmp2].
  generalize (sma_at close fast (S j)) (sma_at close slow (S j))
             (sma_at close fast j) (sma_at close slow j).
  intros f s f' s'.
  eexists. split; [reflexivity |].
  destruct (Qltb f s) eqn:E1; [apply Qltb_lt in E1 | apply Qltb_ge in E1];
    (destruct (Qle_bool s' f') eqn:E2;
     [apply Qle_bool_iff in E2 | apply Qle_bool_false in E2]);
    (destruct (Qltb s f) eqn:E3;
     [apply Qltb_lt in E3 | apply Qltb_ge in E3]);
    (destruct (Qle_bool f' s') eqn:E4;
     [apply Qle_bool_iff in E4 | apply Qle_bool_false in E4]);
    cbn [andb]; (split; split; intros H'); try discriminate H';
    try reflexivity; try (split; assumption);
    destruct H' as [H1 H2]; exfalso; lra.
Qed.

Lemma ma_crossover_meaning_witness :
  exists z,
    nth_error (simple_ma_crossover wave 1 2) 3 = Some z /\
    (z = 1%Z <->
     sma_at wave 2 3 < sma_at wave 1 3 /\ sma_at wave 1 2 <= sma_at wave 2 2) /\
    (z = (-1)%Z <->
     sma_at wave 1 3 < sma_at wave 2 3 /\ sma_at wave 2 2 <= sma_at wave 1 2).
Proof.
  apply (ma_crossover_meaning wave 1 2 2); simpl; lia.
Defined.

(** ** RSI at its extremes *)

Lemma diff_nth_error_0 (s : fseries) :
  s <> [] -> nth_error (diff s) 0 = Some None.
Proof.
  intros Hs. unfold diff. rewrite zip_with_nth_error.
  rewrite shift_nth_error_0 by exact Hs.
  destruct s as [| x s]; [contradiction |]. simpl.
  destruct x; reflexivity.
Qed.

Lemma diff_nth_error_S (prices : list Q) j a b :
  nth_error prices j = Some a -> nth_error prices (S j) = Some b ->
  nth_error (diff (map Some prices)) (S j) = Some (Some (b - a)).
Proof.
  intros Ha Hb. unfold diff. rewrite zip_with_nth_error.
  rewrite shift_nth_error_S
    by (rewrite length_map; apply nth_error_Some; congruence).
  rewrite !nth_error_map, Ha, Hb. reflexivity.
Qed.



Lemma mean_zero xs :
  xs <> [] -> Forall (fun y => y == 0) xs -> Series.mean xs == 0.
Proof.
  intros Hne Hxs.
  assert (Hb : Forall (fun y => 0 <= y /\ y <= 0) xs).
  { eapply Forall_impl; [| exact Hxs]. cbv beta. intros y Hy. lra. }
  destruct (mean_bounds 0 0 xs Hne Hb) as [H1 H2]. lra.
Qed.

(** The last entry of a window is the entry at its position. *)
Lemma window_last (A : Type) n i (s : list A) x :
  (1 <= n)%nat -> nth_error s i = Some x -> In x (Rolling.window n i s).
Proof.
  intros Hn Hx. unfold Rolling.window.
  assert (Hi : (i < length s)%nat) by (apply nth_error_Some; congruence).
  apply (nth_error_In _ (i - (S i - n))).
  rewrite nth_error_skipn, nth_error_firstn.
  replace (S i - n + (i - (S i - n)))%nat with i by lia.
  destruct (Nat.ltb_spec i (S i)); [exact Hx | lia].
Qed.

Lemma window_nonempty (A : Type) n i (s : list A) :
  (1 <= n)%nat -> (i < length s)%nat -> Rolling.window n i s <> [].
Proof.
  intros Hn Hi E. apply (f_equal (@length _)) in E.
  rewrite window_length in E by exact Hi. cbn [length] in E. lia.
Qed.

(** An RSI entry with a full window, from the average gain and the
    average loss over the window. *)
Lemma rsi_entry prices period i :
  (i < length prices)%nat -> (1 <= period <= S i)%nat ->
  nth_error (calculate_rsi (map Some prices) period) i
  = Some (rsi_of
            (XFin (Series.mean
                     (Rolling.window period i
                        (where_positive (diff (map Some prices))))))
            (XFin (Series.mean
                     (Rolling.window period i
                        (map Qopp
                           (where_negative (diff (map Some prices)))))))).
Proof.
  intros Hi Hp.
  assert (Hd : length (diff (map Some prices)) = length prices).
  { unfold diff. rewrite zip_with_length, shift_length, length_map. lia. }
  unfold calculate_rsi, Rolling.mean.
  rewrite nth_error_map, zip_with_nth_error.
  rewrite !apply_nth_error
    by (unfold where_positive, where_negative; rewrite !length_map, Hd;
        exact Hi).
  rewrite !observations_full
    by (try exact Hp; unfold where_positive, where_negative;
        rewrite !length_map, Hd; exact Hi).
  reflexivity.
Qed.

Lemma rsi_of_flat g l : g == 0 -> l == 0 -> rsi_of (XFin g) (XFin l) = XNaN.
Proof.
  intros Hg Hl. unfold rsi_of. cbn [xdiv].
  assert (Qeq_bool l 0 = true) as -> by (apply Qeq_bool_iff; exact Hl).
  assert (Qltb 0 g = false) as -> by (apply Qltb_ge; lra).
  assert (Qltb g 0 = false) as -> by (apply Qltb_ge; lra).
  reflexivity.
Qed.



(** The gain and the loss of a bar: both zero on the first bar, and read
    off the difference to the previous price on the later ones. *)
Lemma gain_loss_first (prices : list Q) :
  prices <> [] ->
  nth_error (where_positive (diff (map Some prices))) 0 = Some 0 /\
  nth_error (map Qopp (where_negative (diff (map Some prices)))) 0
  = Some (- 0).
Proof.
  intros Hne. unfold where_positive, where_negative.
  rewrite !nth_error_map, diff_nth_error_0; [split; reflexivity |].
  destruct prices; [contradiction | discriminate].
Qed.

Lemma gain_loss_next (prices : list Q) j a b :
  nth_error prices j = Some a -> nth_error prices (S j) = Some b ->
  nth_error (where_positive (diff (map Some prices))) (S j)
  = Some (if Qltb 0 (b - a) then b - a else 0) /\
  nth_error (map Qopp (where_negative (diff (map Some prices)))) (S j)
  = Some (- (if Qltb (b - a) 0 then b - a else 0)).
Proof.
  intros Ha Hb. unfold where_positive, where_negative.
  rewrite !nth_error_map, (diff_nth_error_S prices j a b Ha Hb).
  split; reflexivity.
Qed.

(** The gains and losses of a series, bar by bar, under a condition [R]
    on every price and the next one. *)
Lemma gain_loss_entries (R : Q -> Q -> Prop) (G L : Q -> Prop) prices :
  consecutive R prices ->
  G 0 -> L (- 0) ->
  (forall a b, R a b ->
     G (if Qltb 0 (b - a) then b - a else 0) /\
     L (- (if Qltb (b - a) 0 then b - a else 0))) ->
  Forall G (where_positive (diff (map Some prices))) /\
  Forall L (map Qopp (where_negative (diff (map Some prices)))).
Proof.
  intros HR HG HL Hstep.
  assert (Hd : length (diff (map Some prices)) = length prices).
  { unfold diff. rewrite zip_with_length, shift_length, length_map. lia. }
  split; apply Forall_nth_error; intros i x Hi.
  - assert (Hlt : (i < length prices)%nat).
    { rewrite <- Hd. unfold where_positive in Hi.
      rewrite <- (length_map (fun d : option Q =>
                                match d with
                                | Some x => if Qltb 0 x then x else 0
                                | None => 0
                                end)).
      apply nth_error_Some. congruence. }
    destruct i as [| j].
    + destruct (gain_loss_first prices) as [E _];
        [destruct prices; [simpl in Hlt; lia | discriminate] |].
      rewrite E in Hi. injection Hi as <-. exact HG.
    + destruct (nth_error prices j) as [a |] eqn:Ea;
        [| apply nth_error_None in Ea; lia].
      destruct (nth_error prices (S j)) as [b |] eqn:Eb;
        [| apply nth_error_None in Eb; lia].
      destruct (gain_loss_next prices j a b Ea Eb) as [E _].
      rewrite E in Hi. injection Hi as <-.
      apply (Hstep a b). exact (HR j a b Ea Eb).
  - assert (Hlt : (i < length prices)%nat).
    { rewrite <- Hd. unfold where_negative in Hi.
      rewrite <- (length_map (fun d : option Q =>
                                match d with
                                | Some x => if Qltb x 0 then x else 0
                                | None => 0
                                end)).
      rewrite <- (length_map Qopp).
      apply nth_error_Some. congruence. }
    destruct i as [| j].
    + destruct (gain_loss_first prices) as [_ E];
        [destruct prices; [simpl in Hlt; lia | discriminate] |].
      rewrite E in Hi. injection Hi as <-. exact HL.
    + destruct (nth_error prices j) as [a |] eqn:Ea;
        [| apply nth_error_None in Ea; lia].
      destruct (nth_error prices (S j)) as [b |] eqn:Eb;
        [| apply nth_error_None in Eb; lia].
      destruct (gain_loss_next prices j a b Ea Eb) as [_ E].
      rewrite E in Hi. injection Hi as <-.
      apply (Hstep a b). exact (HR j a b Ea Eb).
Qed.

Lemma Forall_window (A : Type) (P : A -> Prop) n i (s : list A) :
  Forall P s -> Forall P (Rolling.window n i s).
Proof.
  intros H. apply Forall_forall. intros x Hx.
  rewrite Forall_forall in H. apply H. eapply window_incl, Hx.
Qed.

Lemma constant_consecutive c prices :
  Forall (fun p => p == c) prices -> consecutive Qeq prices.
Proof.
  intros H j a b Ha Hb. rewrite Forall_forall in H.
  rewrite (H a (nth_error_In _ _ Ha)), (H b (nth_error_In _ _ Hb)).
  reflexivity.
Qed.

(** On constant prices no RSI entry is a number. *)
Lemma rsi_constant prices c period :
  Forall (fun p => p == c) prices ->
  Forall (fun x => x = XNaN) (calculate_rsi (map Some prices) period).
Proof.
  intros Hc. apply Forall_nth_error. intros i x Hx.
  assert (Hi : (i < length prices)%nat).
  { rewrite <- (length_map Some), <- (calculate_rsi_length _ period).
    apply nth_error_Some. congruence. }
  destruct (le_lt_dec period (S i)) as [Hp | Hp];
    [destruct (le_lt_dec 1 period) as [Hp' | Hp'] |].
  - rewrite rsi_entry in Hx by (try exact Hi; lia). injection Hx as <-.
    destruct (gain_loss_entries Qeq (fun g => g == 0) (fun l => l == 0)
                prices (constant_consecutive c prices Hc)) as [HG HL];
      [reflexivity | reflexivity | |].
    { intros a b Hab. split.
      - destruct (Qltb 0 (b - a)); lra.
      - destruct (Qltb (b - a) 0); lra. }
    apply rsi_of_flat; apply mean_zero;
      try (apply window_nonempty;
           [exact Hp'
           | unfold where_positive, where_negative, diff;
             rewrite ?length_map, zip_with_length, shift_length, length_map;
             lia]);
      apply Forall_window; assumption.
  - destruct x; try reflexivity; exfalso;
      apply rsi_defined in Hx; try discriminate; lia.
  - destruct x; try reflexivity; exfalso;
      apply rsi_defined in Hx; try discriminate; lia.
Qed.



(** ** The RSI strategy on a flat market *)

(** Hold signals on every bar: the run returns a result without trade. *)
Lemma all_hold_run self data sig ps :
  data <> [] -> ~ initial_balance self == 0 ->
  length sig = length data -> Forall (fun z => z = 0%Z) sig ->
  exists r,
    run_backtest self (with_signals data sig) ps = Returned r /\
    total_trades r = 0%nat /\ final_balance r = initial_balance self.
Proof.
  intros Hne Hb Hl Hsig.
  assert (Hdl : length (with_signals data sig) = length data)
    by (rewrite with_signals_length; lia).
  assert (Hdf : with_signals data sig <> []).
  { intros E. rewrite E in Hdl. destruct data; [contradiction | discriminate]. }
  destruct (hold_upto self ps (with_signals data sig)
              (length (with_signals data sig) - 1)) as (st & Hst & Ht).
  { intros j _.
    assert (Hz : signal (iloc (with_signals data sig) j) = 0%Z).
    { destruct (Z.eq_dec (signal (iloc (with_signals data sig) j)) 0)
        as [E | E]; [exact E |].
      pose proof (with_signals_signal data sig j E) as Hn.
      rewrite Forall_forall in Hsig. eapply Hsig, nth_error_In, Hn. }
    rewrite Hz. split; discriminate. }
  destruct (no_trades_run self ps _ st Hdf Hb Hst Ht)
    as (r & Hr & Hf & Hn & _).
  exists r. repeat split; auto.
Qed.

Lemma rsi_strategy_length close period oversold overbought :
  length (rsi_strategy close period oversold overbought) = length close.
Proof.
  unfold rsi_strategy.
  pose proof (calculate_rsi_length (map Some close) period) as Hl.
  rewrite length_map in Hl.
  rewrite !assign_length, repeat_length, !zip_with_length, !length_map.
  rewrite shift_length, Hl. lia.
Qed.

(** X20.  A flat market gives the RSI strategy nothing to do.  When every
    close is the same price the RSI is NaN on every bar, no comparison
    with a level holds, [rsi_strategy] signals Hold on every bar, and a
    backtest of it returns a result without any trade and with the
    initial balance as final balance (the data not empty and the initial
    balance not zero). *)
Theorem rsi_flat_market self data c period oversold overbought ps :
  Forall (fun bar => snd bar == c) data ->
  data <> [] ->
  ~ initial_balance self == 0 ->
  Forall (fun z => z = 0%Z)
         (rsi_strategy (map snd data) period oversold overbought) /\
  exists r,
    run_strategy self data
      (fun close =>
         Returned (rsi_strategy close period oversold overbought)) ps
    = Returned r /\
    total_trades r = 0%nat /\ final_balance r = initial_balance self.
Proof.
  intros Hc Hne Hb.
  assert (Hc' : Forall (fun x => x == c) (map snd data))
    by (apply Forall_map; exact Hc).
  pose proof (rsi_constant _ c period Hc') as Hnan.
  assert (Hsig : Forall (fun z => z = 0%Z)
                   (rsi_strategy (map snd data) period oversold overbought)).
  { apply Forall_nth_error. intros i z Hz.
    destruct (Z.eq_dec z 0) as [E | E]; [exact E |].
    unfold rsi_strategy in Hz. apply two_assignments in Hz as [_ Hw].
    exfalso. destruct (Hw E) as [H | H]; apply zip_andb_true in H as [H _];
      rewrite nth_error_map in H;
      destruct (nth_error (calculate_rsi (map Some (map snd data)) period) i)
        as [x |] eqn:Ex; try discriminate;
      rewrite Forall_forall in Hnan;
      rewrite (Hnan x (nth_error_In _ _ Ex)) in H; discriminate. }
  split; [exact Hsig |]. unfold run_strategy.
  apply all_hold_run; auto.
  rewrite rsi_strategy_length. apply length_map.
Qed.

Lemma rsi_flat_market_witness :
  Forall (fun z => z = 0%Z) (rsi_strategy (map snd flat_data) 14 30 70) /\
  exists r,
    run_strategy default_backtester flat_data
      (fun close => Returned (rsi_strategy close 14 30 70)) 1
    = Returned r /\
    total_trades r = 0%nat /\
    final_balance r = initial_balance default_backtester.
Proof.
  apply (rsi_flat_market default_backtester flat_data 100 14 30 70 1);
    [repeat constructor | discriminate | discriminate].
Defined.

(** ** Bollinger bands *)







(** ** Stochastic oscillator *)

Lemma window_min_le xs x : In x xs -> window_min xs <= x.
Proof.
  unfold window_min. generalize (hd 0 xs). intros m.
  induction xs as [| y xs IH]; intros Hin; [destruct Hin |].
  cbn [fold_right].
  destruct (fmin_cases y (fold_right Series.fmin m xs)) as (H1 & H2 & _).
  destruct Hin as [-> | Hin]; [exact H1 |].
  eapply Qle_trans; [exact H2 | apply IH, Hin].
Qed.

Lemma window_max_ge xs x : In x xs -> x <= window_max xs.
Proof.
  unfold window_max. generalize (hd 0 xs). intros m.
  induction xs as [| y xs IH]; intros Hin; [destruct Hin |].
  cbn [fold_right].
  destruct (fmax_cases y (fold_right Series.fmax m xs)) as (H1 & H2 & _).
  destruct Hin as [-> | Hin]; [exact H1 |].
  eapply Qle_trans; [apply IH, Hin | exact H2].
Qed.

(** Rolling means stay between the bounds of the entries they average. *)
Lemma rolling_mean_bounds lo hi n s :
  Forall (fun g => forall v, g = Some v -> lo <= v /\ v <= hi) s ->
  Forall (fun g => forall v, g = Some v -> lo <= v /\ v <= hi)
         (Rolling.mean n s).
Proof.
  intros Hs. apply Forall_nth_error. intros i g Hi v ->.
  assert (Hlen : (i < length s)%nat).
  { rewrite <- (apply_length Series.mean n s).
    apply nth_error_Some. unfold Rolling.mean in Hi. congruence. }
  unfold Rolling.mean in Hi. rewrite apply_nth_error in Hi by exact Hlen.
  injection Hi as Hi.
  destruct (Rolling.observations n _) as [xs |] eqn:E; [| discriminate].
  injection Hi as <-.
  destruct (observations_some _ _ _ _ Hlen E) as (Hn & Hxs & Hw).
  apply mean_bounds.
  - intros ->. simpl in Hxs. lia.
  - apply Forall_forall. intros x Hx.
    assert (Hin : In (Some x) s).
    { apply (window_incl _ n i). rewrite Hw. apply in_map, Hx. }
    rewrite Forall_forall in Hs. exact (Hs _ Hin x eq_refl).
Qed.

(** %K from a close between the lowest low and the highest high. *)
Lemma stochastic_k_entry c ll hh :
  ll <= c -> c <= hh ->
  let k := xmul (XFin 100)
             (xdiv (xsub (XFin c) (XFin ll)) (xsub (XFin hh) (XFin ll))) in
  k = XNaN \/ exists v, k = XFin v /\ 0 <= v /\ v <= 100.
Proof.
  intros H1 H2. cbn [xsub xneg xadd xdiv].
  destruct (Qeq_bool (hh + - ll) 0) eqn:E.
  - apply Qeq_bool_iff in E.
    assert (Qltb 0 (c + - ll) = false) as -> by (apply Qltb_ge; lra).
    assert (Qltb (c + - ll) 0 = false) as -> by (apply Qltb_ge; lra).
    left. reflexivity.
  - apply Qeq_bool_false in E. right. cbn [xmul].
    eexists. split; [reflexivity |].
    assert (Hd : 0 < hh + - ll) by lra.
    assert (Hq0 : 0 <= (c + - ll) / (hh + - ll))
      by (apply Qle_shift_div_l; lra).
    assert (Hq1 : (c + - ll) / (hh + - ll) <= 1)
      by (apply Qle_shift_div_r; lra).
    split; lra.
Qed.

(** X22.  [calculate_stochastic] on bars without NaN whose close lies
    between their low and their high, all three columns of the same
    length.  Both columns have the length of the data; every %K entry is
    NaN or a number between 0 and 100, never an infinity (where the
    highest high equals the lowest low, the close equals them too and the
    division is 0 by 0); every %D entry is NaN or a number between 0
    and 100. *)
Theorem stochastic_range (high low close : list Q) (k_period d_period : nat) :
  length low = length high -> length close = length high ->
  (forall i h l c,
     nth_error high i = Some h -> nth_error low i = Some l ->
     nth_error close i = Some c -> l <= c /\ c <= h) ->
  let s := calculate_stochastic (map Some high) (map Some low)
             (map Some close) k_period d_period in
  length (stoch_k s) = length high /\
  length (stoch_d s) = length high /\
  Forall (fun k => k = XNaN \/ exists v, k = XFin v /\ 0 <= v /\ v <= 100)
         (stoch_k s) /\
  Forall (fun d => forall v, d = Some v -> 0 <= v /\ v <= 100) (stoch_d s).
Proof.
  intros Hl Hc Hbar. cbn zeta. unfold calculate_stochastic.
  cbn [stoch_k stoch_d].
  set (k := zip_with _ (map Some close) _).
  assert (Hklen : length k = length high).
  { unfold k. rewrite !zip_with_length, !apply_length, !length_map. lia. }
  assert (Hk : Forall (fun k => k = XNaN \/
                                exists v, k = XFin v /\ 0 <= v /\ v <= 100)
                      k).
  { apply Forall_nth_error. intros i x Hx.
    assert (Hi : (i < length high)%nat).
    { rewrite <- Hklen. apply nth_error_Some. congruence. }
    unfold k in Hx. rewrite !zip_with_nth_error in Hx.
    rewrite nth_error_map in Hx.
    destruct (nth_error close i) as [c |] eqn:Ec;
      [| apply nth_error_None in Ec; lia].
    rewrite !apply_nth_error in Hx by (rewrite length_map; lia).
    cbn [option_map] in Hx. injection Hx as <-. cbn [fst snd].
    destruct (Nat.le_gt_cases k_period (S i)) as [Hw | Hw];
      [destruct (Nat.le_gt_cases 1 k_period) as [Hp | Hp] |].
    - rewrite !observations_full by (try lia). cbn [option_map xfloat_of].
      destruct (nth_error high i) as [h |] eqn:Eh;
        [| apply nth_error_None in Eh; lia].
      destruct (nth_error low i) as [l |] eqn:El;
        [| apply nth_error_None in El; lia].
      destruct (Hbar i h l c Eh El Ec) as [B1 B2].
      apply stochastic_k_entry.
      + eapply Qle_trans; [| exact B1].
        apply window_min_le, window_last; [exact Hp | exact El].
      + eapply Qle_trans; [exact B2 |].
        apply window_max_ge, window_last; [exact Hp | exact Eh].
    - assert (k_period = 0%nat) as -> by lia.
      unfold Rolling.observations. cbn [Nat.eqb orb option_map xfloat_of].
      left. reflexivity.
    - rewrite !observations_none by (rewrite ?length_map; lia).
      left. reflexivity. }
  split; [exact Hklen |]. split.
  { unfold Rolling.mean. rewrite apply_length, length_map. exact Hklen. }
  split; [exact Hk |].
  apply rolling_mean_bounds. apply Forall_map.
  eapply Forall_impl; [| exact Hk]. cbv beta.
  intros x [-> | (v & -> & Hv)] w; cbn [finite]; [discriminate |].
  intros [= <-]. exact Hv.
Qed.

Lemma stochastic_range_witness :
  Forall (fun k => k = XNaN \/ exists v, k = XFin v /\ 0 <= v /\ v <= 100)
         (stoch_k (calculate_stochastic (map Some [3; 4]) (map Some [1; 2])
                     (map Some [2; 4]) 2 1)).
Proof.
  apply (stochastic_range [3; 4] [1; 2] [2; 4] 2 1);
    [reflexivity | reflexivity |].
  intros [| [| i]] h l c Hh Hl' Hc'; simpl in Hh, Hl', Hc';
    [| | destruct i; discriminate Hh];
    injection Hh as <-; injection Hl' as <-; injection Hc' as <-;
    split; discriminate.
Defined.

(** ** Cache keys *)

Module HelpersFacts.

Import Ascii String Helpers.
#[local] Open Scope string_scope.

Lemma str_inj a b : str a = str b -> a = b.
Proof.
  unfold str. intros H.
  apply DecimalZ.to_int_inj.
  pose proof (DecimalString.NilEmpty.isi (Z.to_int a)) as Ha.
  pose proof (DecimalString.NilEmpty.isi (Z.to_int b)) as Hb.
  rewrite H in Ha. congruence.
Qed.

Lemma string_of_uint_no_separator d :
  ~ occurs separator (DecimalString.NilEmpty.string_of_uint d).
Proof.
  induction d; cbn [DecimalString.NilEmpty.string_of_uint occurs];
    [tauto | intros [H | H]; [discriminate H | auto] ..].
Qed.

Lemma str_no_separator n : ~ occurs separator (str n).
Proof.
  unfold str, DecimalString.NilEmpty.string_of_int.
  destruct (Z.to_int n); cbn [occurs].
  - apply string_of_uint_no_separator.
  - intros [H | H]; [discriminate H |].
    revert H. apply string_of_uint_no_separator.
Qed.

Lemma occurs_app c a b : occurs c b -> occurs c (a ++ b).
Proof. induction a; cbn [append occurs]; auto. Qed.

Lemma append_cancel a x y : a ++ x = a ++ y -> x = y.
Proof.
  induction a; cbn [append]; intros H; [exact H |].
  injection H as H. auto.
Qed.

(** Two strings without separator that are followed by one are equal as
    soon as the whole strings are. *)
Lemma split_at_separator a b x y :
  ~ occurs separator a -> ~ occurs separator b ->
  a ++ String separator x = b ++ String separator y -> a = b /\ x = y.
Proof.
  revert b. induction a as [| c a IH]; intros [| d b] Ha Hb H;
    cbn [append] in H.
  - injection H as H. auto.
  - injection H as H _. exfalso. apply Hb. left. exact H.
  - injection H as H _. exfalso. apply Ha. left. symmetry. exact H.
  - injection H as -> H. cbn [occurs] in Ha, Hb.
    destruct (IH b) as [-> ->]; auto.
Qed.

Lemma no_separator_end a b y :
  ~ occurs separator a -> a <> b ++ String separator y.
Proof.
  intros Ha ->. apply Ha, occurs_app. left. reflexivity.
Qed.

Lemma append_assoc a b c : (a ++ b) ++ c = a ++ (b ++ c).
Proof. induction a; cbn [append]; congruence. Qed.

Lemma append_empty a : a ++ "" = a.
Proof. induction a; cbn [append]; congruence. Qed.

Lemma concat_tail x l :
  concat (String separator "") (x :: l) = x ++ tail_of l.
Proof.
  revert x. induction l as [| y l IH]; intros x.
  - cbn. symmetry. apply append_empty.
  - change (concat (String separator "") (x :: y :: l))
      with (x ++ String separator "" ++ concat (String separator "") (y :: l)).
    rewrite IH. reflexivity.
Qed.

Lemma key_string_parts symbol timeframe since limit :
  key_string symbol timeframe since limit
  = symbol
    ++ String separator (timeframe
                         ++ tail_of (map str (key_numbers since limit))).
Proof.
  unfold key_string, key_numbers.
  change "_" with (String separator "").
  destruct (truthy since), (truthy limit);
    rewrite ?map_app, <- ?app_assoc, ?app_nil_r; cbn [List.app map];
    rewrite concat_tail; reflexivity.
Qed.

Lemma tail_of_inj l l' :
  tail_of (map str l) = tail_of (map str l') -> l = l'.
Proof.
  revert l'. induction l as [| a l IH]; intros [| b l'] H;
    cbn [map tail_of] in H; try discriminate H; [reflexivity |].
  injection H as H.
  destruct l as [| a' l], l' as [| b' l']; cbn [map tail_of] in H.
  - rewrite !append_empty in H. apply str_inj in H. congruence.
  - rewrite append_empty in H. exfalso. revert H.
    apply no_separator_end, str_no_separator.
  - rewrite append_empty in H. exfalso. symmetry in H. revert H.
    apply no_separator_end, str_no_separator.
  - apply split_at_separator in H; try apply str_no_separator.
    destruct H as [H1 H2]. apply str_inj in H1. subst b.
    f_equal. apply IH. cbn [map tail_of]. f_equal. exact H2.
Qed.

(** X23. Requests that differ only in which of [since] and [limit]
    carries a number, or in a zero against an omitted argument, get the
    same cache key: the key is built from the non-zero numbers alone. *)
Theorem cache_key_collisions (md5 : string -> string)
    (symbol timeframe : string) (since limit since' limit' : option Z) :
  key_numbers since limit = key_numbers since' limit' ->
  generate_cache_key md5 symbol timeframe since limit
  = generate_cache_key md5 symbol timeframe since' limit'.
Proof.
  intros H. unfold generate_cache_key.
  rewrite !key_string_parts, H. reflexivity.
Qed.

(** X24. For one symbol and timeframe, the text that is hashed into the
    cache key is the same for two requests exactly when their non-zero
    [since] and [limit] numbers, read in that order, are the same. *)
Theorem key_string_distinguishes (symbol timeframe : string)
    (since limit since' limit' : option Z) :
  key_string symbol timeframe since limit
  = key_string symbol timeframe since' limit'
  <-> key_numbers since limit = key_numbers since' limit'.
Proof.
  rewrite !key_string_parts. split.
  - intros H. apply append_cancel in H. injection H as H.
    apply append_cancel in H. apply tail_of_inj. exact H.
  - intros ->. reflexivity.
Qed.

Lemma cache_key_collisions_witness :
  key_numbers (Some 500%Z) None = key_numbers (Some 0%Z) (Some 500%Z)
  /\ generate_cache_key (fun s => s) "BTC/USDT" "1d" (Some 500%Z) None
     = generate_cache_key (fun s => s) "BTC/USDT" "1d" (Some 0%Z)
         (Some 500%Z).
Proof.
  split; [reflexivity |].
  apply (cache_key_collisions (fun s => s)). reflexivity.
Defined.

Example key_string_example :
  key_string "BTC/USDT" "1d" (Some 1700000000000%Z) (Some 500%Z)
  = "BTC/USDT_1d_1700000000000_500".
Proof. reflexivity. Qed.

End HelpersFacts.

(** ** Fetching with the cache *)

Module FetchDataFacts.

Import Ascii String Helpers FetchData.
#[local] Open Scope string_scope.

Lemma write_same (data : Type) (dir : Dir data) path f :
  write data dir path f path = Some f.
Proof.
  unfold write. destruct (string_dec path path); [reflexivity | contradiction].
Qed.

Lemma key_numbers_key md5 symbol timeframe since limit since' limit' :
  key_numbers since' limit' = key_numbers since limit ->
  generate_cache_key md5 symbol timeframe since' limit'
  = generate_cache_key md5 symbol timeframe since limit.
Proof.
  intros H. unfold generate_cache_key.
  rewrite !HelpersFacts.key_string_parts, H. reflexivity.
Qed.

(** X25.  What the cache answers.  With caching on and a writable cache
    directory, a request that misses the cache and that the exchange
    answers returns the exchange's candles and reaches the exchange once.
    From then on, as long as the file is not older than
    [cache_max_age_hours] (never, when that is [None] or 0), every
    request for the same symbol and timeframe whose non-zero [since] and
    [limit] numbers are the same in that order is answered with these
    candles, without a call to the exchange: the same request, and also
    [limit = n] after [since = n]. *)
Theorem cached_answer (md5 : string -> string) (data : Type)
    (self : CryptoDataFetcher data) (w : World data)
    (symbol timeframe : string) (since limit : option Z) (d : data) :
  use_cache data self = true ->
  writable data w = true ->
  load_from_cache data (dir data w) (now data w)
    (generate_cache_key md5 symbol timeframe since limit)
    (exchange_name data self) (cache_max_age_hours data self) = None ->
  exchange data self (symbol, timeframe, since, limit) = Some d ->
  exists w1,
    fetch_ohlcv md5 data self w symbol timeframe since limit = (w1, Some d) /\
    calls data w1
    = (calls data w ++ [(symbol, timeframe, since, limit)])%list /\
    forall (t : Q) (since' limit' : option Z),
      key_numbers since' limit' = key_numbers since limit ->
      match cache_max_age_hours data self with
      | Some h => h = 0%Z \/ (t - now data w <= inject_Z h)%Q
      | None => True
      end ->
      fetch_ohlcv md5 data self (at_time w1 t) symbol timeframe since' limit'
      = (at_time w1 t, Some d).
Proof.
  intros Hc Hw Hmiss Hex. unfold fetch_ohlcv at 1.
  rewrite Hc, Hmiss, Hex. cbn [dir now writable calls].
  unfold save_to_cache. rewrite Hw.
  eexists. split; [reflexivity |]. split; [reflexivity |].
  intros t since' limit' Hk Hage. unfold fetch_ohlcv, at_time.
  cbn [dir now writable calls]. rewrite Hc.
  rewrite (key_numbers_key md5 symbol timeframe since limit since' limit' Hk).
  unfold load_from_cache. rewrite write_same. cbn [mtime content].
  destruct (cache_max_age_hours data self) as [h |]; [| reflexivity].
  destruct Hage as [-> | Hage]; [reflexivity |].
  assert (Qltb (inject_Z h) (t - now data w) = false) as ->
    by (apply Qltb_ge; exact Hage).
  rewrite andb_false_r. reflexivity.
Qed.

Lemma cached_answer_witness :
  let self := mkFetcher nat "binance" true (Some 24%Z)
                (fun r => Some (length (fst (fst (fst r))))) in
  let w := mkWorld nat (fun _ => None) 0 true [] in
  exists w1,
    fetch_ohlcv (fun s => s) nat self w "BTC/USDT" "1d" (Some 500%Z) None
    = (w1, Some 8%nat) /\
    fetch_ohlcv (fun s => s) nat self (at_time w1 12) "BTC/USDT" "1d" None
      (Some 500%Z)
    = (at_time w1 12, Some 8%nat).
Proof.
  cbv zeta.
  destruct (cached_answer (fun s => s) nat
              (mkFetcher nat "binance" true (Some 24%Z)
                 (fun r => Some (length (fst (fst (fst r))))))
              (mkWorld nat (fun _ => None) 0 true [])
              "BTC/USDT" "1d" (Some 500%Z) None 8%nat
              eq_refl eq_refl eq_refl eq_refl) as (w1 & H1 & _ & H3).
  exists w1. split; [exact H1 |].
  apply H3; [reflexivity |]. right. discriminate.
Defined.

End FetchDataFacts.
